(** * Attuned: the linguistic feature extractor of [scripts/validate_dreaddit.py]

    A shallow embedding of [LinguisticFeatures] and [LinguisticExtractor]
    and the properties their specification states about them.

    Modelling conventions.

    - A Python [str] is a list of characters, one [ascii] per code point;
      the model covers the strings whose code points are below 256 (ASCII
      and Latin-1), and the character classes below are Python's own on
      that range ([str.isspace], [str.lower], the [\w] of [re]).
    - Python [int]s are [Z].  Python [float]s are idealised as exact
      rationals ([Q]): rounding is not modelled.
    - Operations that can raise return a [result]; [/] raises
      [ZeroDivisionError] on a zero divisor and indexing raises
      [IndexError] out of range. *)

From Stdlib Require Import Ascii String.
From Stdlib Require Import List Bool Arith ZArith QArith Qminmax Lia Lqa.
From Stdlib Require Import Permutation.
Import ListNotations.

(** ** Exceptions *)

Inductive exn : Type :=
| ZeroDivisionError
| IndexError.

Inductive result (A : Type) : Type :=
| Ok (a : A)
| Raise (e : exn).

Arguments Ok {A} a.
Arguments Raise {A} e.

Definition bind {A B : Type} (c : result A) (k : A -> result B) : result B :=
  match c with
  | Ok a => k a
  | Raise e => Raise e
  end.

Notation "x <- c ;; k" := (bind c (fun x => k))
  (at level 61, c at next level, right associativity).

(** ** Python strings *)

Module Py.

Definition str : Type := list ascii.

(** A string literal of the source. *)
Definition lit (s : string) : str := list_ascii_of_string s.

Definition code (c : ascii) : N := N_of_ascii c.

Definition between (lo hi : N) (c : ascii) : bool :=
  ((lo <=? code c) && (code c <=? hi))%N.

Definition is_one_of (codes : list N) (c : ascii) : bool :=
  existsb (N.eqb (code c)) codes.

(** [[a-z]], [[A-Z]] and [[a-zA-Z]]. *)
Definition ascii_lower (c : ascii) : bool := between 97 122 c.
Definition ascii_upper (c : ascii) : bool := between 65 90 c.
Definition ascii_letter (c : ascii) : bool := ascii_lower c || ascii_upper c.

(** The upper-case and lower-case letters of Latin-1 beyond ASCII. *)
Definition latin_upper (c : ascii) : bool :=
  between 192 214 c || between 216 222 c.
Definition latin_lower (c : ascii) : bool :=
  between 223 246 c || between 248 255 c || is_one_of [170; 181; 186]%N c.

(** [str.isalnum] of one character: letters, decimal digits, and the
    Latin-1 superscripts and fractions. *)
Definition isalnum (c : ascii) : bool :=
  ascii_letter c || between 48 57 c || latin_upper c || latin_lower c
  || is_one_of [178; 179; 185; 188; 189; 190]%N c.

(** The class [\w] of [re] on [str] patterns: alphanumerics and [_]. *)
Definition word_char (c : ascii) : bool := isalnum c || is_one_of [95%N] c.

(** [str.isspace] of one character. *)
Definition isspace (c : ascii) : bool :=
  between 9 13 c || between 28 32 c || is_one_of [133; 160]%N c.

(** [str.lower], character by character. *)
Definition lower_char (c : ascii) : ascii :=
  if ascii_upper c || latin_upper c then ascii_of_N (code c + 32) else c.

Definition lower (s : str) : str := map lower_char s.

(** Cased characters, for [str.isupper]. *)
Definition is_upper_char (c : ascii) : bool := ascii_upper c || latin_upper c.
Definition is_lower_char (c : ascii) : bool := ascii_lower c || latin_lower c.

(** [str.isupper]: at least one cased character and no lower-case one. *)
Definition isupper (s : str) : bool :=
  existsb is_upper_char s && negb (existsb is_lower_char s).

Definition len (s : str) : Z := Z.of_nat (length s).

Definition str_eqb (a b : str) : bool :=
  if list_eq_dec ascii_dec a b then true else false.

(** [c in s] for a one-character [c], and [w in l] for a list of strings. *)
Definition char_in (c : ascii) (s : str) : bool := existsb (Ascii.eqb c) s.
Definition str_in (w : str) (l : list str) : bool := existsb (str_eqb w) l.

(** [s.startswith(p)] on the remaining text. *)
Fixpoint startswith (p s : str) : bool :=
  match p, s with
  | [], _ => true
  | c :: p', d :: s' => Ascii.eqb c d && startswith p' s'
  | _ :: _, [] => false
  end.

Definition endswith (s p : str) : bool := startswith (rev p) (rev s).

(** [s[-k]] for [k >= 1]. *)
Definition index_from_end (s : str) (k : nat) : result ascii :=
  match nth_error (rev s) (pred k) with
  | Some c => Ok c
  | None => Raise IndexError
  end.

(** [s.strip()]: leading and trailing white space removed. *)
Fixpoint lstrip (s : str) : str :=
  match s with
  | c :: s' => if isspace c then lstrip s' else s
  | [] => []
  end.

Definition rstrip (s : str) : str := rev (lstrip (rev s)).
Definition strip (s : str) : str := rstrip (lstrip s).

(** Truth value of a string: non-empty. *)
Definition truthy (s : str) : bool :=
  match s with [] => false | _ :: _ => true end.

(** [s.split()]: the maximal runs of non-space characters.  [cur] holds
    the run being read, reversed. *)
Fixpoint split_from (cur : str) (s : str) : list str :=
  match s with
  | [] => match cur with [] => [] | _ => [rev cur] end
  | c :: s' =>
      if isspace c
      then match cur with
           | [] => split_from [] s'
           | _ => rev cur :: split_from [] s'
           end
      else split_from (c :: cur) s'
  end.

Definition split (s : str) : list str := split_from [] s.

(** [s.count(sub)]: occurrences found scanning left to right, the scan
    resuming after the end of each occurrence found.  [skip] is the number
    of characters still covered by the last occurrence. *)
Fixpoint count_from (sub : str) (skip : nat) (s : str) : nat :=
  match skip with
  | S k =>
      match s with
      | [] => 0
      | _ :: s' => count_from sub k s'
      end
  | O =>
      if startswith sub s
      then S (match s with
              | [] => 0
              | _ :: s' => count_from sub (pred (length sub)) s'
              end)
      else match s with
           | [] => 0
           | _ :: s' => count_from sub 0 s'
           end
  end.

Definition count (s sub : str) : Z := Z.of_nat (count_from sub 0 s).

(** [len(l)] and [sum(l)] on lists. *)
Definition llen {A : Type} (l : list A) : Z := Z.of_nat (length l).
Definition sum (l : list Z) : Z := fold_right Z.add 0%Z l.

(** [a / b] on integers: true division. *)
Definition true_div (a b : Z) : result Q :=
  if (b =? 0)%Z then Raise ZeroDivisionError
  else Ok (inject_Z a / inject_Z b)%Q.

End Py.

(** ** The fragment of [re] the extractor uses *)

Module Re.
Import Py.

(** Patterns: a literal (what [re.escape] yields), one character, a
    greedy [+] over a character class, the assertion [\b], sequence, and a
    greedy optional group. *)
Inductive regex : Type :=
| Lit (p : str)
| Chr (c : ascii)
| Plus (cls : ascii -> bool)
| Bnd
| Seq (r1 r2 : regex)
| Opt (r : regex).

(** A position in the text is the character before it, if any, and the
    text from it on.  [\b] holds where exactly one side is a [\w]. *)
Definition is_word (c : option ascii) : bool :=
  match c with
  | Some c => word_char c
  | None => false
  end.

Definition boundary (prev : option ascii) (s : str) : bool :=
  xorb (is_word prev) (is_word (hd_error s)).

(** Backtracking matcher in continuation style: [k] is what remains to be
    matched, [n] counts the characters consumed since the match began. *)
Definition cont : Type := option ascii -> str -> nat -> option nat.

Fixpoint lit_k (p : str) (k : cont) (prev : option ascii) (s : str) (n : nat)
  : option nat :=
  match p with
  | [] => k prev s n
  | c :: p' =>
      match s with
      | d :: s' => if Ascii.eqb c d then lit_k p' k (Some d) s' (S n) else None
      | [] => None
      end
  end.

(** Greedy [+]: take one more character first, give it back if the rest
    of the pattern fails. *)
Fixpoint plus_k (cls : ascii -> bool) (k : cont) (prev : option ascii)
  (s : str) (n : nat) : option nat :=
  match s with
  | c :: s' =>
      if cls c
      then match plus_k cls k (Some c) s' (S n) with
           | Some e => Some e
           | None => k (Some c) s' (S n)
           end
      else None
  | [] => None
  end.

Fixpoint exec (r : regex) (k : cont) (prev : option ascii) (s : str) (n : nat)
  : option nat :=
  match r with
  | Lit p => lit_k p k prev s n
  | Chr c => lit_k [c] k prev s n
  | Plus cls => plus_k cls k prev s n
  | Bnd => if boundary prev s then k prev s n else None
  | Seq r1 r2 => exec r1 (exec r2 k) prev s n
  | Opt r1 =>
      match exec r1 k prev s n with
      | Some e => Some e
      | None => k prev s n
      end
  end.

(** The length of the match of [r] that starts at this position. *)
Definition match_at (r : regex) (prev : option ascii) (s : str) : option nat :=
  exec r (fun _ _ n => Some n) prev s 0.

(** [re.findall(r, s)]: the matches found scanning left to right, each
    search starting where the previous match ended.  After an empty match
    the scan moves on by one character.  [skip] is the number of
    characters still covered by the last match. *)
Fixpoint findall_from (r : regex) (skip : nat) (prev : option ascii) (s : str)
  : list str :=
  match skip with
  | S k =>
      match s with
      | [] => []
      | c :: s' => findall_from r k (Some c) s'
      end
  | O =>
      match match_at r prev s with
      | Some n =>
          firstn n s ::
          match s with
          | [] => []
          | c :: s' => findall_from r (pred n) (Some c) s'
          end
      | None =>
          match s with
          | [] => []
          | c :: s' => findall_from r 0 (Some c) s'
          end
      end
  end.

Definition findall (r : regex) (s : str) : list str := findall_from r 0 None s.

(** [re.split(r, s)], for a pattern that matches no empty string: the
    pieces of [s] between the matches.  [cur] is the piece being read,
    reversed. *)
Fixpoint split_from (r : regex) (skip : nat) (prev : option ascii) (cur : str)
  (s : str) : list str :=
  match skip with
  | S k =>
      match s with
      | [] => [rev cur]
      | c :: s' => split_from r k (Some c) cur s'
      end
  | O =>
      match match_at r prev s, s with
      | Some (S n), c :: s' => rev cur :: split_from r n (Some c) [] s'
      | _, c :: s' => split_from r 0 (Some c) (c :: cur) s'
      | _, [] => [rev cur]
      end
  end.

Definition split (r : regex) (s : str) : list str := split_from r 0 None [] s.

End Re.

Import Py.

(** ** Word lists *)

Definition HEDGE_WORDS : list str := map lit
  [ "maybe"; "perhaps"; "possibly"; "probably"; "might"; "could";
    "sort of"; "kind of"; "i think"; "i guess"; "i suppose";
    "seems"; "appears"; "likely"; "unlikely"; "somewhat";
    "fairly"; "rather"; "quite"; "a bit"; "a little";
    "in my opinion"; "i believe"; "i feel"; "not sure" ]%string.

Definition CERTAINTY_MARKERS : list str := map lit
  [ "definitely"; "certainly"; "absolutely"; "clearly"; "obviously";
    "undoubtedly"; "surely"; "of course"; "without doubt";
    "no question"; "for sure"; "guaranteed"; "always"; "never";
    "must"; "will"; "know for a fact" ]%string.

Definition URGENCY_WORDS : list str := map lit
  [ "urgent"; "asap"; "immediately"; "now"; "hurry";
    "emergency"; "critical"; "deadline"; "rush"; "quick";
    "fast"; "right away"; "time-sensitive"; "pressing" ]%string.

Definition POLITENESS_MARKERS : list str := map lit
  [ "please"; "thank you"; "thanks"; "appreciate";
    "sorry"; "excuse me"; "pardon"; "would you mind" ]%string.

Definition FIRST_PERSON : list str := map lit
  [ "i"; "me"; "my"; "mine"; "myself"; "we"; "us"; "our"; "ours" ]%string.

Definition FILLER_WORDS : list str := map lit
  [ "um"; "uh"; "like"; "you know"; "basically";
    "actually"; "literally"; "honestly"; "well" ]%string.

Definition NEGATIVE_EMOTION_WORDS : list str := map lit
  [ "worried"; "worry"; "worries"; "anxious"; "anxiety"; "nervous";
    "afraid"; "fear"; "scared"; "panic"; "stressed"; "stress";
    "tense"; "uneasy"; "dread"; "dreading";
    "upset"; "frustrated"; "annoyed"; "angry"; "mad";
    "sad"; "depressed"; "hopeless"; "miserable";
    "terrible"; "awful"; "horrible"; "worst";
    "struggling"; "suffering"; "overwhelmed"; "exhausted";
    "desperate"; "helpless"; "stuck"; "lost" ]%string.

Definition ABSOLUTIST_WORDS : list str := map lit
  [ "always"; "never"; "nothing"; "everything"; "completely";
    "totally"; "absolutely"; "entirely"; "impossible"; "definitely" ]%string.

(** ** LinguisticFeatures *)

Record LinguisticFeatures : Type := {
  char_count : Z;
  word_count : Z;
  sentence_count : Z;
  avg_word_length : Q;
  avg_sentence_length : Q;
  long_word_ratio : Q;
  reading_grade_level : Q;
  exclamation_ratio : Q;
  question_ratio : Q;
  caps_word_count : Z;
  caps_ratio : Q;
  hedge_count : Z;
  hedge_density : Q;
  certainty_count : Z;
  contraction_ratio : Q;
  politeness_count : Z;
  first_person_ratio : Q;
  urgency_word_count : Z;
  imperative_count : Z;
  filler_ratio : Q;
  negative_emotion_count : Z;
  negative_emotion_density : Q;
  absolutist_count : Z;
  absolutist_density : Q
}.

(** [LinguisticFeatures()]: every field at its default. *)
Definition LinguisticFeatures_default : LinguisticFeatures := {|
  char_count := 0;
  word_count := 0;
  sentence_count := 0;
  avg_word_length := 0;
  avg_sentence_length := 0;
  long_word_ratio := 0;
  reading_grade_level := 0;
  exclamation_ratio := 0;
  question_ratio := 0;
  caps_word_count := 0;
  caps_ratio := 0;
  hedge_count := 0;
  hedge_density := 0;
  certainty_count := 0;
  contraction_ratio := 0;
  politeness_count := 0;
  first_person_ratio := 0;
  urgency_word_count := 0;
  imperative_count := 0;
  filler_ratio := 0;
  negative_emotion_count := 0;
  negative_emotion_density := 0;
  absolutist_count := 0;
  absolutist_density := 0
|}.

Definition uncertainty_score (self : LinguisticFeatures) : Q :=
  let hedge_component := Qmin (hedge_density self * 2.0) 1.0 * 0.6 in
  let question_component := Qmin (question_ratio self * 3.0) 1.0 * 0.4 in
  hedge_component + question_component.

Definition uncertainty_score_v2 (self : LinguisticFeatures) : Q :=
  let base := uncertainty_score self in
  let neg_emotion := Qmin (negative_emotion_density self * 2.0) 1.0 in
  let first_person := Qmin (first_person_ratio self * 2.0) 1.0 in
  base * 0.4 + neg_emotion * 0.4 + first_person * 0.2.

Definition emotional_intensity (self : LinguisticFeatures) : Q :=
  let exclaim := Qmin (exclamation_ratio self * 5.0) 1.0 * 0.5 in
  let caps := Qmin (caps_ratio self * 3.0) 1.0 * 0.5 in
  exclaim + caps.

Definition formality_score (self : LinguisticFeatures) : Q :=
  let contraction_penalty := contraction_ratio self * 0.4 in
  let complexity_bonus := Qmin (reading_grade_level self / 12.0) 1.0 * 0.4 in
  let filler_penalty := filler_ratio self * 0.2 in
  Qmax 0.0
    (Qmin 1.0 (0.5 + complexity_bonus - contraction_penalty - filler_penalty)).

Definition complexity_score (self : LinguisticFeatures) : Q :=
  let grade := Qmin (reading_grade_level self / 12.0) 1.0 * 0.4 in
  let sentence_len := Qmin (avg_sentence_length self / 25.0) 1.0 * 0.3 in
  let long_words := long_word_ratio self * 0.3 in
  grade + sentence_len + long_words.

(** ** LinguisticExtractor *)

Record LinguisticExtractor : Type := {
  long_word_threshold : Z;
  min_caps_word_length : Z
}.

(** [LinguisticExtractor()]. *)
Definition LinguisticExtractor_default : LinguisticExtractor :=
  {| long_word_threshold := 6; min_caps_word_length := 2 |}.

Definition apostrophe : ascii := "'"%char.

(** The class [[.!?]]. *)
Definition terminal (c : ascii) : bool :=
  char_in c (lit ".!?").

(** [\b[a-zA-Z]+(?:'[a-zA-Z]+)?\b] *)
Definition word_pattern : Re.regex :=
  Re.Seq Re.Bnd
    (Re.Seq (Re.Plus ascii_letter)
       (Re.Seq (Re.Opt (Re.Seq (Re.Chr apostrophe) (Re.Plus ascii_letter)))
          Re.Bnd)).

(** [[.!?]+] *)
Definition terminal_pattern : Re.regex := Re.Plus terminal.

(** [\b\w+'\w+\b] *)
Definition contraction_pattern : Re.regex :=
  Re.Seq Re.Bnd
    (Re.Seq (Re.Plus word_char)
       (Re.Seq (Re.Chr apostrophe) (Re.Seq (Re.Plus word_char) Re.Bnd))).

(** [\b{re.escape(phrase)}\b] *)
Definition phrase_pattern (phrase : str) : Re.regex :=
  Re.Seq Re.Bnd (Re.Seq (Re.Lit phrase) Re.Bnd).

Definition _tokenize_words (text : str) : list str :=
  Re.findall word_pattern text.

(** [len(...) or 1] *)
Definition _count_sentences (text : str) : Z :=
  let n := llen (Re.findall terminal_pattern text) in
  if (n =? 0)%Z then 1%Z else n.

Definition vowels : str := lit "aeiouy".

(** The loop of [_syllables_in_word] over the characters of the word. *)
Fixpoint vowel_groups (count : Z) (prev_vowel : bool) (word : str) : Z :=
  match word with
  | [] => count
  | char :: rest =>
      let is_vowel := char_in char vowels in
      let count := if is_vowel && negb prev_vowel then (count + 1)%Z else count in
      vowel_groups count is_vowel rest
  end.

Definition _syllables_in_word (word : str) : result Z :=
  let word := lower word in
  let count := vowel_groups 0 false word in
  let count :=
    if endswith word (lit "e") && (count >? 1)%Z then (count - 1)%Z else count in
  syllabic <-
    (if endswith word (lit "le")
     then if (len word >? 2)%Z
          then c <- index_from_end word 3 ;; Ok (negb (char_in c vowels))
          else Ok false
     else Ok false) ;;
  let count := if (syllabic : bool) then (count + 1)%Z else count in
  Ok (Z.max 1 count).

(** [sum(self._syllables_in_word(w) for w in words)] *)
Fixpoint sum_syllables (words : list str) : result Z :=
  match words with
  | [] => Ok 0%Z
  | w :: rest =>
      n <- _syllables_in_word w ;;
      m <- sum_syllables rest ;;
      Ok (n + m)%Z
  end.

Definition _count_matches (text : str) (word_list : list str) : Z :=
  fold_left
    (fun count phrase =>
       if char_in " "%char phrase
       then (count + Py.count text phrase)%Z
       else (count + llen (Re.findall (phrase_pattern phrase) text))%Z)
    word_list 0%Z.

Definition imperative_starters : list str := map lit
  [ "do"; "don't"; "please"; "let"; "make"; "take"; "give";
    "get"; "go"; "come"; "tell"; "help"; "stop"; "start";
    "try"; "send"; "call"; "check"; "look"; "see"; "read" ]%string.

Definition _count_imperatives (text : str) : Z :=
  let sentences := Re.split terminal_pattern text in
  fold_left
    (fun count sent =>
       match Py.split (lower (strip sent)) with
       | w0 :: _ => if str_in w0 imperative_starters then (count + 1)%Z else count
       | [] => count
       end)
    sentences 0%Z.

(** [np.mean(l)] of a non-empty list of integers. *)
Definition np_mean (l : list Z) : Q := inject_Z (sum l) / inject_Z (llen l).

(** [extract].  The fields are computed in the order of the source; a
    [sum(1 for x in xs if p)] is the length of the filtered list. *)
Definition extract (self : LinguisticExtractor) (text : str)
  : result LinguisticFeatures :=
  if negb (truthy text) || negb (truthy (strip text))
  then Ok LinguisticFeatures_default
  else
    let char_count_ := len text in
    let words := _tokenize_words text in
    let word_count_ := llen words in
    let sentences := _count_sentences text in
    let sentence_count_ := Z.max sentences 1 in
    if (word_count_ =? 0)%Z
    then Ok {|
      char_count := char_count_;
      word_count := word_count_;
      sentence_count := sentence_count_;
      avg_word_length := 0;
      avg_sentence_length := 0;
      long_word_ratio := 0;
      reading_grade_level := 0;
      exclamation_ratio := 0;
      question_ratio := 0;
      caps_word_count := 0;
      caps_ratio := 0;
      hedge_count := 0;
      hedge_density := 0;
      certainty_count := 0;
      contraction_ratio := 0;
      politeness_count := 0;
      first_person_ratio := 0;
      urgency_word_count := 0;
      imperative_count := 0;
      filler_ratio := 0;
      negative_emotion_count := 0;
      negative_emotion_density := 0;
      absolutist_count := 0;
      absolutist_density := 0 |}
    else
      let word_lengths := map len words in
      let avg_word_length_ :=
        match word_lengths with [] => 0.0 | _ :: _ => np_mean word_lengths end in
      avg_sentence_length_ <- true_div word_count_ sentence_count_ ;;
      long_word_ratio_ <-
        true_div
          (llen (filter (fun l => (l >? long_word_threshold self)%Z) word_lengths))
          word_count_ ;;
      syllables <- sum_syllables words ;;
      reading_grade_level_ <-
        (if (word_count_ >? 0)%Z && (sentence_count_ >? 0)%Z
         then
           wps <- true_div word_count_ sentence_count_ ;;
           spw <- true_div syllables word_count_ ;;
           Ok (Qmax 0.0 (0.39 * wps + 11.8 * spw - 15.59))
         else Ok 0.0) ;;
      let exclamations := Py.count text (lit "!") in
      let questions := Py.count text (lit "?") in
      exclamation_ratio_ <- true_div exclamations sentence_count_ ;;
      question_ratio_ <- true_div questions sentence_count_ ;;
      let caps_words :=
        filter
          (fun w => isupper w && (len w >=? min_caps_word_length self)%Z)
          words in
      let caps_word_count_ := llen caps_words in
      caps_ratio_ <- true_div caps_word_count_ word_count_ ;;
      let text_lower := lower text in
      let hedge_count_ := _count_matches text_lower HEDGE_WORDS in
      hedge_density_ <- true_div hedge_count_ sentence_count_ ;;
      let certainty_count_ := _count_matches text_lower CERTAINTY_MARKERS in
      let politeness_count_ := _count_matches text_lower POLITENESS_MARKERS in
      let urgency_word_count_ := _count_matches text_lower URGENCY_WORDS in
      let contractions := llen (Re.findall contraction_pattern text_lower) in
      contraction_ratio_ <- true_div contractions word_count_ ;;
      let words_lower := map lower words in
      let first_person_count :=
        llen (filter (fun w => str_in w FIRST_PERSON) words_lower) in
      first_person_ratio_ <- true_div first_person_count word_count_ ;;
      let imperative_count_ := _count_imperatives text in
      let filler_count := _count_matches text_lower FILLER_WORDS in
      filler_ratio_ <- true_div filler_count word_count_ ;;
      let negative_emotion_count_ :=
        _count_matches text_lower NEGATIVE_EMOTION_WORDS in
      negative_emotion_density_ <-
        true_div negative_emotion_count_ sentence_count_ ;;
      let absolutist_count_ := _count_matches text_lower ABSOLUTIST_WORDS in
      absolutist_density_ <- true_div absolutist_count_ sentence_count_ ;;
      Ok {|
        char_count := char_count_;
        word_count := word_count_;
        sentence_count := sentence_count_;
        avg_word_length := avg_word_length_;
        avg_sentence_length := avg_sentence_length_;
        long_word_ratio := long_word_ratio_;
        reading_grade_level := reading_grade_level_;
        exclamation_ratio := exclamation_ratio_;
        question_ratio := question_ratio_;
        caps_word_count := caps_word_count_;
        caps_ratio := caps_ratio_;
        hedge_count := hedge_count_;
        hedge_density := hedge_density_;
        certainty_count := certainty_count_;
        contraction_ratio := contraction_ratio_;
        politeness_count := politeness_count_;
        first_person_ratio := first_person_ratio_;
        urgency_word_count := urgency_word_count_;
        imperative_count := imperative_count_;
        filler_ratio := filler_ratio_;
        negative_emotion_count := negative_emotion_count_;
        negative_emotion_density := negative_emotion_density_;
        absolutist_count := absolutist_count_;
        absolutist_density := absolutist_density_ |}.

(** ** Reference definitions of the specification *)

(** The characters of a word, each paired with the character before it. *)
Definition with_previous (prev : option ascii) (w : str)
  : list (option ascii * ascii) :=
  combine (prev :: map Some w) w.

Definition vowel (c : ascii) : bool := char_in c vowels.

Definition vowel_before (p : option ascii) : bool :=
  match p with
  | Some c => vowel c
  | None => false
  end.

(** A maximal run of vowels starts at each vowel that no vowel precedes. *)
Definition starts_vowel_run (pc : option ascii * ascii) : bool :=
  vowel (snd pc) && negb (vowel_before (fst pc)).

Definition vowel_runs (w : str) : Z :=
  llen (filter starts_vowel_run (with_previous None w)).

(** The word ends in [e]; the word ends in [le], has more than two
    characters, and the character before the [l] is no vowel. *)
Definition ends_in_e (w : str) : bool :=
  match rev w with
  | c :: _ => Ascii.eqb c "e"
  | [] => false
  end.

Definition ends_in_consonant_le (w : str) : bool :=
  match rev w with
  | c1 :: c2 :: c3 :: _ => Ascii.eqb c1 "e" && Ascii.eqb c2 "l" && negb (vowel c3)
  | _ => false
  end.

(** The syllable estimate as the specification words it. *)
Definition reference_syllables (word : str) : Z :=
  let w := lower word in
  let runs := vowel_runs w in
  let silent_e := if ends_in_e w && (1 <? runs)%Z then 1%Z else 0%Z in
  let syllabic_le := if ends_in_consonant_le w then 1%Z else 0%Z in
  Z.max 1 (runs - silent_e + syllabic_le).

(** Text made of white space only; the empty text is one. *)
Definition whitespace_only (text : str) : bool := forallb isspace text.

(** The five ratios whose denominator is the word count. *)
Definition word_ratios_zero (f : LinguisticFeatures) : Prop :=
  long_word_ratio f == 0 /\ caps_ratio f == 0 /\ contraction_ratio f == 0
  /\ first_person_ratio f == 0 /\ filler_ratio f == 0.

(** Every ratio and density field is zero. *)
Definition ratio_fields_zero (f : LinguisticFeatures) : Prop :=
  word_ratios_zero f
  /\ exclamation_ratio f == 0 /\ question_ratio f == 0 /\ hedge_density f == 0
  /\ negative_emotion_density f == 0 /\ absolutist_density f == 0.

Definition unit_interval (q : Q) : Prop := 0 <= q /\ q <= 1.

(** A record, possibly a partial one, none of whose fields is negative. *)
Definition nonneg_fields (f : LinguisticFeatures) : Prop :=
  ((0 <= char_count f)%Z /\ (0 <= word_count f)%Z /\ (0 <= sentence_count f)%Z
   /\ (0 <= caps_word_count f)%Z /\ (0 <= hedge_count f)%Z
   /\ (0 <= certainty_count f)%Z /\ (0 <= politeness_count f)%Z
   /\ (0 <= urgency_word_count f)%Z /\ (0 <= imperative_count f)%Z
   /\ (0 <= negative_emotion_count f)%Z /\ (0 <= absolutist_count f)%Z)
  /\ (0 <= avg_word_length f /\ 0 <= avg_sentence_length f
      /\ 0 <= long_word_ratio f /\ 0 <= reading_grade_level f
      /\ 0 <= exclamation_ratio f /\ 0 <= question_ratio f
      /\ 0 <= caps_ratio f /\ 0 <= hedge_density f
      /\ 0 <= contraction_ratio f /\ 0 <= first_person_ratio f
      /\ 0 <= filler_ratio f /\ 0 <= negative_emotion_density f
      /\ 0 <= absolutist_density f).

(** The grade-level formula of the specification, before the floor. *)
Definition flesch_kincaid (words sentences syllables : Z) : Q :=
  0.39 * (inject_Z words / inject_Z sentences)
  + 11.8 * (inject_Z syllables / inject_Z words) - 15.59.

(** The record [extract] returns for a text without a word that is not
    white space only: the three counts are set, the rest is at its
    default. *)
Definition counts_only (text : str) : LinguisticFeatures := {|
  char_count := len text;
  word_count := 0;
  sentence_count := _count_sentences text;
  avg_word_length := 0;
  avg_sentence_length := 0;
  long_word_ratio := 0;
  reading_grade_level := 0;
  exclamation_ratio := 0;
  question_ratio := 0;
  caps_word_count := 0;
  caps_ratio := 0;
  hedge_count := 0;
  hedge_density := 0;
  certainty_count := 0;
  contraction_ratio := 0;
  politeness_count := 0;
  first_person_ratio := 0;
  urgency_word_count := 0;
  imperative_count := 0;
  filler_ratio := 0;
  negative_emotion_count := 0;
  negative_emotion_density := 0;
  absolutist_count := 0;
  absolutist_density := 0 |}.

(** [t'] is [t] with exclamation marks added and nothing else changed. *)
Inductive adds_exclamations : str -> str -> Prop :=
| adds_done : adds_exclamations [] []
| adds_same (c : ascii) (t t' : str) :
    adds_exclamations t t' -> adds_exclamations (c :: t) (c :: t')
| adds_mark (t t' : str) :
    adds_exclamations t t' -> adds_exclamations t ("!"%char :: t').

(** The length of the longest prefix of [s] within a character class,
    and the number of maximal runs of the class in [s]; [inrun] tells
    whether the character before [s] belongs to a run. *)
Fixpoint span (cls : ascii -> bool) (s : str) : nat :=
  match s with
  | c :: s' => if cls c then S (span cls s') else 0
  | [] => 0
  end.

Fixpoint count_runs (cls : ascii -> bool) (inrun : bool) (s : str) : nat :=
  match s with
  | c :: s' =>
      if cls c
      then (if inrun then 0 else 1) + count_runs cls true s'
      else count_runs cls false s'
  | [] => 0
  end.

(** The number of exclamation marks of a text. *)
Definition exclamation_marks (s : str) : nat :=
  length (filter (Ascii.eqb "!") s).

(** The number of positions of [s] at which [sub] occurs, overlapping
    occurrences included. *)
Fixpoint occurrences (sub s : str) : nat :=
  (if startswith sub s then 1 else 0)
  + match s with
    | [] => 0
    | _ :: s' => occurrences sub s'
    end.

(** The character before the end of an occurrence of [p] that starts
    after [prev]. *)
Definition last_char (prev : option ascii) (p : str) : option ascii :=
  last (map Some p) prev.

(** [p] occurs at this position with a word boundary on either side. *)
Definition whole_word_at (p : str) (prev : option ascii) (s : str) : bool :=
  Re.boundary prev s && startswith p s
  && Re.boundary (last_char prev p) (skipn (length p) s).

(** The number of positions of [s] at which [p] occurs as a whole word. *)
Fixpoint word_occurrences (p : str) (prev : option ascii) (s : str) : nat :=
  (if whole_word_at p prev s then 1 else 0)
  + match s with
    | [] => 0
    | c :: s' => word_occurrences p (Some c) s'
    end.

(** The count of the specification: the occurrences of a phrase with a
    space, the whole-word occurrences of a phrase without, summed over
    the phrases of the list. *)
Definition reference_term (text phrase : str) : Z :=
  if char_in " "%char phrase
  then Z.of_nat (occurrences phrase text)
  else Z.of_nat (word_occurrences phrase None text).

Definition reference_count_matches (text : str) (word_list : list str) : Z :=
  sum (map (reference_term text) word_list).

(** What one phrase adds to the count in the loop of [_count_matches]. *)
Definition phrase_matches (text phrase : str) : Z :=
  if char_in " "%char phrase
  then Py.count text phrase
  else llen (Re.findall (phrase_pattern phrase) text).

(** The character before position [j] of [s]. *)
Fixpoint prev_at (prev : option ascii) (s : str) (j : nat) : option ascii :=
  match j, s with
  | S j', c :: s' => prev_at (Some c) s' j'
  | _, _ => prev
  end.

(** A copy of [p] can start [j] characters into [p]: the rest of [p] from
    there is a prefix of [p] and, for a phrase matched on word boundaries,
    a word boundary lies there. *)
Definition overlaps_at (p : str) (j : nat) : bool :=
  startswith (skipn j p) p
  && (char_in " "%char p || Re.boundary (nth_error p (pred j)) (skipn j p)).

Definition overlap_free (p : str) : bool :=
  forallb (fun j => negb (overlaps_at p j)) (seq 1 (pred (length p))).

(** A word token: letters, or letters, an apostrophe and letters. *)
Inductive word_token : str -> Prop :=
| token_plain (u : str) :
    u <> [] -> forallb ascii_letter u = true -> word_token u
| token_contracted (u v : str) :
    u <> [] -> v <> [] ->
    forallb ascii_letter u = true -> forallb ascii_letter v = true ->
    word_token (u ++ apostrophe :: v).

(** The total length of a list of strings. *)
Definition total_length (l : list str) : nat :=
  fold_right (fun w n => (length w + n)%nat) 0%nat l.

(** A pattern that cannot tell a character from its image under [f]. *)
Fixpoint respects (f : ascii -> ascii) (r : Re.regex) : Prop :=
  match r with
  | Re.Lit p => forall c d, In c p -> Ascii.eqb c (f d) = Ascii.eqb c d
  | Re.Chr c => forall d, Ascii.eqb c (f d) = Ascii.eqb c d
  | Re.Plus cls => forall d, cls (f d) = cls d
  | Re.Bnd => True
  | Re.Seq r1 r2 => respects f r1 /\ respects f r2
  | Re.Opt r1 => respects f r1
  end.

(** Two records that agree on every field but the two caps fields, which
    are zero in the second. *)
Definition same_but_caps (f g : LinguisticFeatures) : Prop :=
  (char_count g = char_count f /\ word_count g = word_count f
   /\ sentence_count g = sentence_count f
   /\ avg_word_length g = avg_word_length f
   /\ avg_sentence_length g = avg_sentence_length f
   /\ long_word_ratio g = long_word_ratio f
   /\ reading_grade_level g = reading_grade_level f
   /\ exclamation_ratio g = exclamation_ratio f
   /\ question_ratio g = question_ratio f)
  /\ (hedge_count g = hedge_count f /\ hedge_density g = hedge_density f
      /\ certainty_count g = certainty_count f
      /\ contraction_ratio g = contraction_ratio f
      /\ politeness_count g = politeness_count f
      /\ first_person_ratio g = first_person_ratio f
      /\ urgency_word_count g = urgency_word_count f
      /\ imperative_count g = imperative_count f
      /\ filler_ratio g = filler_ratio f
      /\ negative_emotion_count g = negative_emotion_count f
      /\ negative_emotion_density g = negative_emotion_density f
      /\ absolutist_count g = absolutist_count f
      /\ absolutist_density g = absolutist_density f)
  /\ caps_word_count g = 0%Z /\ caps_ratio g == 0.

(** The entry [results['majority_baseline']] of [run_classification],
    from the majority class of the training labels and the share of test
    labels equal to it. *)
Record baseline : Type := {
  features : list str;
  test_precision : Q;
  test_recall : Q;
  test_f1 : Q;
  test_accuracy : Q
}.

Definition majority_baseline (majority_class : Z) (majority_acc : Q)
  : baseline := {|
  features := [];
  test_precision := if (majority_class =? 1)%Z then majority_acc else 0;
  test_recall := if (majority_class =? 1)%Z then 1.0 else 0;
  test_f1 :=
    if (majority_class =? 1)%Z
    then 2 * majority_acc / (1 + majority_acc)
    else 0;
  test_accuracy := majority_acc
|}.

(** A token can start at this position: no word character before it, a
    run of letters from it, and no word character after the run. *)
Definition starts_token (prev : option ascii) (s : str) : bool :=
  negb (Re.is_word prev) && (1 <=? span ascii_letter s)%nat
  && negb (Re.is_word (hd_error (skipn (span ascii_letter s) s))).

(** A token can start at this position or at a later one. *)
Fixpoint has_token (prev : option ascii) (s : str) : bool :=
  starts_token prev s
  || match s with
     | [] => false
     | c :: s' => has_token (Some c) s'
     end.



(** Python's [a / b] on floats: it raises on a zero divisor. *)
Definition float_div (a b : Q) : result Q :=
  if Qeq_bool b 0 then Raise ZeroDivisionError else Ok (a / b).

(** [formality_score] and [complexity_score] with their divisions as the
    fallible operations they are in Python. *)
Definition formality_score_checked (self : LinguisticFeatures) : result Q :=
  let contraction_penalty := contraction_ratio self * 0.4 in
  grade <- float_div (reading_grade_level self) 12.0 ;;
  let complexity_bonus := Qmin grade 1.0 * 0.4 in
  let filler_penalty := filler_ratio self * 0.2 in
  Ok (Qmax 0.0
        (Qmin 1.0 (0.5 + complexity_bonus - contraction_penalty - filler_penalty))).

Definition complexity_score_checked (self : LinguisticFeatures) : result Q :=
  grade <- float_div (reading_grade_level self) 12.0 ;;
  let grade := Qmin grade 1.0 * 0.4 in
  sentence_len <- float_div (avg_sentence_length self) 25.0 ;;
  let sentence_len := Qmin sentence_len 1.0 * 0.3 in
  let long_words := long_word_ratio self * 0.3 in
  Ok (grade + sentence_len + long_words).

(** [np.mean] with its value on the empty list, [nan], as [None]. *)
Definition np_mean_or_nan (l : list Z) : option Q :=
  match l with
  | [] => None
  | _ :: _ => Some (np_mean l)
  end.

(** A size no field of the record of a text exceeds: 37 is the length of
    the longest word list. *)
Definition field_bound (text : str) : Z := 37 * (len text + 1).

(** Every field of the record lies between 0 and [b]. *)
Definition fields_within (b : Z) (f : LinguisticFeatures) : Prop :=
  nonneg_fields f
  /\ ((char_count f <= b)%Z /\ (word_count f <= b)%Z /\ (sentence_count f <= b)%Z
      /\ (caps_word_count f <= b)%Z /\ (hedge_count f <= b)%Z
      /\ (certainty_count f <= b)%Z /\ (politeness_count f <= b)%Z
      /\ (urgency_word_count f <= b)%Z /\ (imperative_count f <= b)%Z
      /\ (negative_emotion_count f <= b)%Z /\ (absolutist_count f <= b)%Z)
  /\ (avg_word_length f <= inject_Z b /\ avg_sentence_length f <= inject_Z b
      /\ long_word_ratio f <= inject_Z b /\ reading_grade_level f <= inject_Z b
      /\ exclamation_ratio f <= inject_Z b /\ question_ratio f <= inject_Z b
      /\ caps_ratio f <= inject_Z b /\ hedge_density f <= inject_Z b
      /\ contraction_ratio f <= inject_Z b /\ first_person_ratio f <= inject_Z b
      /\ filler_ratio f <= inject_Z b /\ negative_emotion_density f <= inject_Z b
      /\ absolutist_density f <= inject_Z b).

(** [rate] is the quotient [count / denominator]: it is at most the
    count, and zero exactly when the count is. *)
Definition rate_of (rate : Q) (count denominator : Z) : Prop :=
  rate == inject_Z count / inject_Z denominator
  /\ rate <= inject_Z count
  /\ (rate == 0 <-> count = 0%Z).

(** A fact about every character, by cases on its eight bits. *)
Ltac by_character d :=
  destruct d as [[] [] [] [] [] [] [] []]; vm_compute; reflexivity.

(** No occurrence at the current position, from a hypothesis on the
    positions still covered by the last match. *)
Ltac here_none Hk :=
  let H0 := fresh "H0" in
  pose proof (Hk 0%nat ltac:(lia)) as H0;
  cbn [skipn prev_at] in H0; rewrite H0.

(** * Properties *)

(** ** The syllable estimator *)

Lemma vowel_groups_runs (w : str) (count : Z) (prev : option ascii) :
  vowel_groups count (vowel_before prev) w
  = (count + llen (filter starts_vowel_run (with_previous prev w)))%Z.
Proof.
  revert count prev.
  induction w as [|c w IH]; intros count prev.
  - cbn. unfold llen. cbn. lia.
  - cbn [vowel_groups].
    change (char_in c vowels) with (vowel_before (Some c)).
    rewrite IH.
    unfold with_previous. cbn [map combine filter].
    unfold starts_vowel_run at 2. cbn [fst snd].
    change (vowel c) with (vowel_before (Some c)).
    destruct (vowel_before (Some c) && negb (vowel_before prev));
      unfold llen; cbn [length]; lia.
Qed.

Lemma endswith_e (w : str) : endswith w (lit "e") = ends_in_e w.
Proof.
  unfold endswith, ends_in_e. cbn.
  destruct (rev w) as [|c r]; [reflexivity|].
  rewrite Ascii.eqb_sym. apply andb_true_r.
Qed.

Lemma syllabic_le_guard (w : str) :
  (if endswith w (lit "le")
   then if (len w >? 2)%Z
        then c <- index_from_end w 3 ;; Ok (negb (char_in c vowels))
        else Ok false
   else Ok false) = Ok (ends_in_consonant_le w).
Proof.
  unfold endswith, ends_in_consonant_le, index_from_end, len.
  rewrite <- (length_rev w).
  destruct (rev w) as [|c1 [|c2 [|c3 r]]]; cbn [lit list_ascii_of_string rev app startswith].
  - reflexivity.
  - rewrite andb_false_r. reflexivity.
  - rewrite andb_true_r, (Ascii.eqb_sym _ c1), (Ascii.eqb_sym _ c2).
    destruct (Ascii.eqb c1 "e" && Ascii.eqb c2 "l"); reflexivity.
  - rewrite andb_true_r, (Ascii.eqb_sym _ c1), (Ascii.eqb_sym _ c2).
    destruct (Ascii.eqb c1 "e" && Ascii.eqb c2 "l"); [|reflexivity].
    replace (Z.of_nat (length (c1 :: c2 :: c3 :: r)) >? 2)%Z with true.
    + reflexivity.
    + symmetry. apply Z.gtb_lt. cbn [length]. lia.
Qed.

Lemma syllables_in_word_ok (word : str) :
  _syllables_in_word word = Ok (reference_syllables word).
Proof.
  unfold _syllables_in_word, reference_syllables.
  cbv zeta.
  rewrite syllabic_le_guard. cbn [bind].
  rewrite endswith_e.
  change false with (vowel_before None).
  rewrite vowel_groups_runs, Z.add_0_l.
  fold (vowel_runs (lower word)).
  rewrite Z.gtb_ltb.
  f_equal. f_equal.
  destruct (ends_in_e (lower word) && (1 <? vowel_runs (lower word))%Z);
    destruct (ends_in_consonant_le (lower word)); lia.
Qed.

(** C6. For every word, [_syllables_in_word] returns the reference value
    of the specification: the number of maximal runs of the vowels
    a, e, i, o, u, y of the lower-cased word, less one if the word ends in
    e and that number exceeds one, plus one if the word ends in le after a
    non-vowel and is longer than two characters, floored at one.  The
    value is at least one. *)
Theorem syllables_in_word_reference (word : str) :
  _syllables_in_word word = Ok (reference_syllables word)
  /\ (1 <= reference_syllables word)%Z.
Proof.
  split; [apply syllables_in_word_ok|apply Z.le_max_l].
Qed.

(** ** Guards of [extract] *)

Lemma lstrip_nil (s : str) : lstrip s = [] <-> forallb isspace s = true.
Proof.
  induction s as [|c s IH]; cbn; [tauto|].
  destruct (isspace c); cbn; [exact IH|].
  split; discriminate.
Qed.

Lemma strip_nil (s : str) : strip s = [] <-> forallb isspace s = true.
Proof.
  unfold strip, rstrip.
  split; intros H.
  - apply (f_equal (@rev ascii)) in H. rewrite rev_involutive in H. cbn in H.
    apply lstrip_nil in H.
    rewrite forallb_forall in H.
    destruct (forallb isspace s) eqn:Hs; [reflexivity|].
    assert (Hl : lstrip s <> []) by (rewrite lstrip_nil, Hs; discriminate).
    assert (Hhd : exists c r, lstrip s = c :: r /\ isspace c = false).
    { clear -Hl. induction s as [|c s IH]; cbn in *; [congruence|].
      destruct (isspace c) eqn:Hc; [apply IH, Hl|eauto]. }
    destruct Hhd as (c & r & Hcr & Hc).
    rewrite (H c) in Hc; [discriminate|].
    rewrite <- in_rev, Hcr. now left.
  - apply lstrip_nil in H. rewrite H. reflexivity.
Qed.

Lemma empty_guard (text : str) :
  negb (truthy text) || negb (truthy (strip text)) = whitespace_only text.
Proof.
  unfold whitespace_only.
  destruct (forallb isspace text) eqn:Hs.
  - apply strip_nil in Hs. rewrite Hs. apply orb_true_r.
  - assert (Hn : strip text <> []) by (rewrite strip_nil, Hs; discriminate).
    destruct text; [discriminate|].
    destruct (strip (a :: text)); [congruence|reflexivity].
Qed.

Lemma true_div_ok (a b : Z) :
  b <> 0%Z -> true_div a b = Ok (inject_Z a / inject_Z b).
Proof.
  intros H. unfold true_div.
  destruct (Z.eqb_spec b 0); [contradiction|reflexivity].
Qed.

Lemma sum_syllables_ok (words : list str) :
  sum_syllables words = Ok (sum (map reference_syllables words)).
Proof.
  induction words as [|w words IH]; [reflexivity|].
  cbn [sum_syllables map sum fold_right].
  rewrite syllables_in_word_ok, IH. reflexivity.
Qed.

Lemma count_sentences_pos (text : str) : (1 <= _count_sentences text)%Z.
Proof.
  unfold _count_sentences, llen. cbv zeta.
  destruct (Z.eqb_spec (Z.of_nat (length (Re.findall terminal_pattern text))) 0); lia.
Qed.

Lemma sentence_count_floor (text : str) :
  Z.max (_count_sentences text) 1 = _count_sentences text.
Proof. pose proof (count_sentences_pos text). lia. Qed.

(** What [extract] returns on a text with at least one word: every
    division of the source has a non-zero divisor. *)
Lemma extract_words (self : LinguisticExtractor) (text : str) :
  whitespace_only text = false ->
  _tokenize_words text <> [] ->
  let words := _tokenize_words text in
  let wc := llen words in
  let sc := _count_sentences text in
  let text_lower := lower text in
  let ratio (a b : Z) := inject_Z a / inject_Z b in
  extract self text = Ok {|
    char_count := len text;
    word_count := wc;
    sentence_count := sc;
    avg_word_length :=
      match map len words with [] => 0.0 | _ :: _ => np_mean (map len words) end;
    avg_sentence_length := ratio wc sc;
    long_word_ratio :=
      ratio (llen (filter (fun l => (l >? long_word_threshold self)%Z)
                     (map len words))) wc;
    reading_grade_level :=
      Qmax 0.0
        (0.39 * ratio wc sc
         + 11.8 * ratio (sum (map reference_syllables words)) wc - 15.59);
    exclamation_ratio := ratio (Py.count text (lit "!")) sc;
    question_ratio := ratio (Py.count text (lit "?")) sc;
    caps_word_count :=
      llen (filter (fun w => isupper w && (len w >=? min_caps_word_length self)%Z)
              words);
    caps_ratio :=
      ratio
        (llen (filter
                 (fun w => isupper w && (len w >=? min_caps_word_length self)%Z)
                 words)) wc;
    hedge_count := _count_matches text_lower HEDGE_WORDS;
    hedge_density := ratio (_count_matches text_lower HEDGE_WORDS) sc;
    certainty_count := _count_matches text_lower CERTAINTY_MARKERS;
    contraction_ratio :=
      ratio (llen (Re.findall contraction_pattern text_lower)) wc;
    politeness_count := _count_matches text_lower POLITENESS_MARKERS;
    first_person_ratio :=
      ratio (llen (filter (fun w => str_in w FIRST_PERSON) (map lower words))) wc;
    urgency_word_count := _count_matches text_lower URGENCY_WORDS;
    imperative_count := _count_imperatives text;
    filler_ratio := ratio (_count_matches text_lower FILLER_WORDS) wc;
    negative_emotion_count := _count_matches text_lower NEGATIVE_EMOTION_WORDS;
    negative_emotion_density :=
      ratio (_count_matches text_lower NEGATIVE_EMOTION_WORDS) sc;
    absolutist_count := _count_matches text_lower ABSOLUTIST_WORDS;
    absolutist_density := ratio (_count_matches text_lower ABSOLUTIST_WORDS) sc
  |}.
Proof.
  intros Hws Hwords. cbv zeta.
  assert (Hwc : llen (_tokenize_words text) <> 0%Z).
  { unfold llen. destruct (_tokenize_words text); [congruence|cbn; lia]. }
  assert (Hsc : _count_sentences text <> 0%Z).
  { pose proof (count_sentences_pos text). lia. }
  unfold extract. rewrite empty_guard, Hws. cbv zeta.
  rewrite sentence_count_floor.
  destruct (Z.eqb_spec (llen (_tokenize_words text)) 0) as [E|_]; [contradiction|].
  rewrite sum_syllables_ok.
  replace ((llen (_tokenize_words text) >? 0)%Z && (_count_sentences text >? 0)%Z)
    with true.
  2:{ symmetry. apply andb_true_intro. split; apply Z.gtb_lt.
      - unfold llen in *. lia.
      - pose proof (count_sentences_pos text). lia. }
  repeat (first [rewrite (true_div_ok _ _ Hwc) | rewrite (true_div_ok _ _ Hsc)];
          cbn [bind]).
  reflexivity.
Qed.

(** What [extract] returns on a text without a word. *)
Lemma extract_no_words (self : LinguisticExtractor) (text : str) :
  whitespace_only text = false ->
  _tokenize_words text = [] ->
  extract self text = Ok (counts_only text).
Proof.
  intros Hws Hwords.
  unfold extract. rewrite empty_guard, Hws, Hwords. cbv zeta.
  rewrite sentence_count_floor. reflexivity.
Qed.

Lemma extract_whitespace (self : LinguisticExtractor) (text : str) :
  whitespace_only text = true ->
  extract self text = Ok LinguisticFeatures_default.
Proof.
  intros Hws. unfold extract. rewrite empty_guard, Hws. reflexivity.
Qed.

Lemma tokens_nil_dec (text : str) :
  {_tokenize_words text = []} + {_tokenize_words text <> []}.
Proof. destruct (_tokenize_words text); [left|right]; congruence. Qed.

(** [extract] returns a record on every text. *)
Lemma extract_ok (self : LinguisticExtractor) (text : str) :
  exists f, extract self text = Ok f.
Proof.
  destruct (whitespace_only text) eqn:Hws.
  - eexists. apply extract_whitespace, Hws.
  - destruct (tokens_nil_dec text) as [Hw|Hw].
    + eexists. apply extract_no_words; assumption.
    + eexists. apply (extract_words self text Hws Hw).
Qed.

(** The word count of the record is the number of tokens. *)
Lemma extract_word_count (self : LinguisticExtractor) (text : str)
  (f : LinguisticFeatures) :
  extract self text = Ok f ->
  whitespace_only text = false ->
  word_count f = llen (_tokenize_words text).
Proof.
  intros Hf Hws.
  destruct (tokens_nil_dec text) as [Hw|Hw].
  - rewrite (extract_no_words self text Hws Hw) in Hf.
    injection Hf as <-. rewrite Hw. reflexivity.
  - rewrite (extract_words self text Hws Hw) in Hf.
    injection Hf as <-. reflexivity.
Qed.

Lemma llen_nil_iff {A : Type} (l : list A) : llen l = 0%Z <-> l = [].
Proof.
  unfold llen. destruct l; cbn [length]; split; intros H;
    try reflexivity; try discriminate; lia.
Qed.

Lemma default_ratios_zero : ratio_fields_zero LinguisticFeatures_default.
Proof. repeat split. Qed.

Lemma counts_only_ratios_zero (text : str) : ratio_fields_zero (counts_only text).
Proof. repeat split. Qed.

(** ** Degenerate inputs *)

(** C1 (as stated, refuted). On the empty text [extract] returns no record
    with [sentence_count = 1]: it returns the default record, whose
    [sentence_count] is 0. *)
Lemma empty_text_sentence_count_not_one :
  ~ (exists f, extract LinguisticExtractor_default (lit "") = Ok f
               /\ word_count f = 0%Z /\ sentence_count f = 1%Z).
Proof.
  intros (f & Hf & _ & Hs).
  vm_compute in Hf. injection Hf as <-. discriminate Hs.
Qed.

(** C1 (amended). For the empty text and for every text of white space
    only, [extract] returns the default record: [word_count = 0],
    [sentence_count = 0], and every ratio and density field is 0. *)
Theorem extract_whitespace_default (self : LinguisticExtractor) (text : str) :
  whitespace_only text = true ->
  exists f, extract self text = Ok f
            /\ f = LinguisticFeatures_default
            /\ word_count f = 0%Z /\ sentence_count f = 0%Z
            /\ ratio_fields_zero f.
Proof.
  intros Hws. exists LinguisticFeatures_default.
  split; [apply extract_whitespace, Hws|].
  repeat split.
Qed.

(** The text of three spaces. *)
Lemma extract_whitespace_default_witness :
  exists f, extract LinguisticExtractor_default (lit "   ") = Ok f
            /\ f = LinguisticFeatures_default
            /\ word_count f = 0%Z /\ sentence_count f = 0%Z
            /\ ratio_fields_zero f.
Proof.
  apply (extract_whitespace_default LinguisticExtractor_default (lit "   ")).
  reflexivity.
Defined.

(** C4 (as stated, refuted). The text [123] is not empty and has no word,
    and the record returned is not the default one: its [char_count] is 3
    and its [sentence_count] is 1. *)
Lemma digits_record_not_default :
  exists f, extract LinguisticExtractor_default (lit "123") = Ok f
            /\ word_count f = 0%Z
            /\ char_count f = 3%Z /\ sentence_count f = 1%Z
            /\ f <> LinguisticFeatures_default.
Proof.
  eexists. split; [vm_compute; reflexivity|].
  repeat split. discriminate.
Qed.

(** C4 (amended). For every non-empty text on which extraction yields
    [word_count = 0], the record is the default one when the text is white
    space only, and otherwise the default one but for [char_count], the
    length of the text, and [sentence_count], the number of runs of
    terminal punctuation floored at 1.  In both cases every ratio and
    density field is 0, the five word-count ratios among them. *)
Theorem extract_no_word_record (self : LinguisticExtractor) (text : str)
  (f : LinguisticFeatures) :
  text <> [] ->
  extract self text = Ok f ->
  word_count f = 0%Z ->
  f = (if whitespace_only text then LinguisticFeatures_default
       else counts_only text)
  /\ ratio_fields_zero f /\ word_ratios_zero f.
Proof.
  intros _ Hf Hwc.
  assert (Heq : f = if whitespace_only text then LinguisticFeatures_default
                    else counts_only text).
  { destruct (whitespace_only text) eqn:Hws.
    - rewrite (extract_whitespace self text Hws) in Hf. congruence.
    - rewrite (extract_word_count self text f Hf Hws) in Hwc.
      apply llen_nil_iff in Hwc.
      rewrite (extract_no_words self text Hws Hwc) in Hf. congruence. }
  split; [exact Heq|].
  assert (Hz : ratio_fields_zero f).
  { rewrite Heq. destruct (whitespace_only text);
      [apply default_ratios_zero|apply counts_only_ratios_zero]. }
  split; [exact Hz|apply Hz].
Qed.

(** The text [12.5?]: five characters, two runs of terminal punctuation, no word. *)
Lemma extract_no_word_record_witness :
  exists f, extract LinguisticExtractor_default (lit "12.5?") = Ok f
            /\ f = counts_only (lit "12.5?")
            /\ char_count f = 5%Z /\ sentence_count f = 2%Z
            /\ word_ratios_zero f.
Proof.
  exists (counts_only (lit "12.5?")).
  assert (Hf : extract LinguisticExtractor_default (lit "12.5?")
               = Ok (counts_only (lit "12.5?"))) by (vm_compute; reflexivity).
  assert (Hne : lit "12.5?" <> []) by discriminate.
  destruct (extract_no_word_record LinguisticExtractor_default
              (lit "12.5?") (counts_only (lit "12.5?")) Hne Hf eq_refl)
    as (H1 & _ & H3).
  repeat split; try exact Hf; apply H3.
Defined.

(** ** Readability *)

(** C7. Whenever [word_count > 0] and [sentence_count > 0], the total
    syllable count is the sum of the per-word estimates and
    [reading_grade_level] is
    [max(0, 0.39 * (words/sentences) + 11.8 * (syllables/words) - 15.59)].
    For a text whose words are cat, dog and sat in one sentence the total
    is 3, the formula gives -2.62, and the grade level is 0. *)
Theorem reading_grade_level_formula (self : LinguisticExtractor) (text : str)
  (f : LinguisticFeatures) :
  extract self text = Ok f ->
  (0 < word_count f)%Z ->
  (0 < sentence_count f)%Z ->
  let syllables := sum (map reference_syllables (_tokenize_words text)) in
  sum_syllables (_tokenize_words text) = Ok syllables
  /\ reading_grade_level f
     == Qmax 0 (flesch_kincaid (word_count f) (sentence_count f) syllables)
  /\ (_tokenize_words text = [lit "cat"; lit "dog"; lit "sat"] ->
      sentence_count f = 1%Z ->
      syllables = 3%Z
      /\ flesch_kincaid (word_count f) (sentence_count f) syllables == -2.62
      /\ reading_grade_level f == 0).
Proof.
  intros Hf Hwc Hsc syllables.
  split; [apply sum_syllables_ok|].
  assert (Hws : whitespace_only text = false).
  { destruct (whitespace_only text) eqn:Hws; [|reflexivity].
    rewrite (extract_whitespace self text Hws) in Hf.
    injection Hf as <-. cbn in Hwc. lia. }
  assert (Hw : _tokenize_words text <> []).
  { intros Hw. rewrite (extract_no_words self text Hws Hw) in Hf.
    injection Hf as <-. cbn in Hwc. lia. }
  rewrite (extract_words self text Hws Hw) in Hf.
  injection Hf as <-. cbn [reading_grade_level word_count sentence_count].
  split; [apply Q.max_compat; [now vm_compute|reflexivity]|].
  intros Htok Hone. subst syllables. unfold flesch_kincaid.
  rewrite Hone, Htok.
  split; [vm_compute; reflexivity|].
  split; vm_compute; reflexivity.
Qed.

(** The scenario of the specification: cat, dog and sat in one sentence. *)
Lemma reading_grade_level_formula_witness :
  exists f, extract LinguisticExtractor_default (lit "cat dog sat.") = Ok f
            /\ word_count f = 3%Z /\ sentence_count f = 1%Z
            /\ sum_syllables (_tokenize_words (lit "cat dog sat.")) = Ok 3%Z
            /\ flesch_kincaid 3 1 3 == -2.62
            /\ reading_grade_level f == 0.
Proof.
  destruct (extract_ok LinguisticExtractor_default (lit "cat dog sat."))
    as (f & Hf).
  assert (Hwc : word_count f = 3%Z).
  { vm_compute in Hf. injection Hf as <-. reflexivity. }
  assert (Hsc : sentence_count f = 1%Z).
  { vm_compute in Hf. injection Hf as <-. reflexivity. }
  assert (Hwc' : (0 < word_count f)%Z) by (rewrite Hwc; reflexivity).
  assert (Hsc' : (0 < sentence_count f)%Z) by (rewrite Hsc; reflexivity).
  destruct (reading_grade_level_formula LinguisticExtractor_default
              (lit "cat dog sat.") f Hf Hwc' Hsc') as (Hsum & _ & Hcat).
  destruct (Hcat eq_refl Hsc) as (_ & Hfk & Hzero).
  rewrite Hwc, Hsc in Hfk.
  exists f.
  split; [exact Hf|]. split; [exact Hwc|]. split; [exact Hsc|].
  split; [exact Hsum|]. split; [exact Hfk|exact Hzero].
Defined.

(** ** Fractions and counts *)

Lemma llen_nonneg {A : Type} (l : list A) : (0 <= llen l)%Z.
Proof. unfold llen. lia. Qed.

Lemma llen_filter_le {A : Type} (p : A -> bool) (l : list A) :
  (llen (filter p l) <= llen l)%Z.
Proof. unfold llen. pose proof (filter_length_le p l). lia. Qed.

Lemma llen_map {A B : Type} (g : A -> B) (l : list A) : llen (map g l) = llen l.
Proof. unfold llen. now rewrite length_map. Qed.

Lemma ratio_nonneg (a b : Z) :
  (0 <= a)%Z -> (0 < b)%Z -> 0 <= inject_Z a / inject_Z b.
Proof.
  intros Ha Hb.
  apply Qle_shift_div_l.
  - change 0 with (inject_Z 0). now rewrite <- Zlt_Qlt.
  - rewrite Qmult_0_l. change 0 with (inject_Z 0). now rewrite <- Zle_Qle.
Qed.

Lemma ratio_le_one (a b : Z) :
  (a <= b)%Z -> (0 < b)%Z -> inject_Z a / inject_Z b <= 1.
Proof.
  intros Hab Hb.
  apply Qle_shift_div_r.
  - change 0 with (inject_Z 0). now rewrite <- Zlt_Qlt.
  - rewrite Qmult_1_l. now rewrite <- Zle_Qle.
Qed.

Lemma fraction_unit {A : Type} (p : A -> bool) (l : list A) (b : Z) :
  llen l = b -> (0 < b)%Z ->
  unit_interval (inject_Z (llen (filter p l)) / inject_Z b).
Proof.
  intros <- Hb. split.
  - apply ratio_nonneg; [apply llen_nonneg|assumption].
  - apply ratio_le_one; [apply llen_filter_le|assumption].
Qed.

Lemma count_matches_from (text : str) (word_list : list str) (start : Z) :
  (start <=
   fold_left
     (fun count phrase =>
        if char_in " "%char phrase
        then (count + Py.count text phrase)%Z
        else (count + llen (Re.findall (phrase_pattern phrase) text))%Z)
     word_list start)%Z.
Proof.
  revert start. induction word_list as [|p l IH]; intros start; cbn [fold_left].
  - lia.
  - etransitivity; [|apply IH].
    destruct (char_in " " p); unfold Py.count, llen; lia.
Qed.

Lemma count_matches_nonneg (text : str) (word_list : list str) :
  (0 <= _count_matches text word_list)%Z.
Proof. apply count_matches_from. Qed.

Lemma count_imperatives_nonneg (text : str) : (0 <= _count_imperatives text)%Z.
Proof.
  unfold _count_imperatives. cbv zeta.
  generalize (Re.split terminal_pattern text). intros l.
  assert (H : forall start, (0 <= start)%Z ->
             (0 <= fold_left
                (fun count sent =>
                   match Py.split (lower (strip sent)) with
                   | w0 :: _ =>
                       if str_in w0 imperative_starters
                       then (count + 1)%Z else count
                   | [] => count
                   end) l start)%Z).
  { induction l as [|x l IH]; intros start Hs; cbn [fold_left]; [exact Hs|].
    apply IH. destruct (Py.split (lower (strip x))); [exact Hs|].
    destruct (str_in s imperative_starters); lia. }
  apply H. lia.
Qed.

Lemma sum_len_nonneg (l : list str) : (0 <= sum (map len l))%Z.
Proof.
  unfold sum. induction l as [|w l IH]; cbn [map fold_right]; [lia|].
  unfold len at 1. lia.
Qed.

(** No field of an extracted record is negative, and its
    [long_word_ratio] is at most 1. *)
Lemma extract_nonneg (self : LinguisticExtractor) (text : str)
  (f : LinguisticFeatures) :
  extract self text = Ok f -> nonneg_fields f /\ long_word_ratio f <= 1.
Proof.
  intros Hf.
  assert (Hd : nonneg_fields LinguisticFeatures_default
               /\ long_word_ratio LinguisticFeatures_default <= 1).
  { unfold nonneg_fields. cbn. repeat split; discriminate. }
  destruct (whitespace_only text) eqn:Hws.
  { rewrite (extract_whitespace self text Hws) in Hf.
    injection Hf as <-. exact Hd. }
  pose proof (count_sentences_pos text) as Hsc.
  assert (Hlen : (0 <= len text)%Z) by (unfold len; lia).
  destruct (tokens_nil_dec text) as [Hw|Hw].
  { rewrite (extract_no_words self text Hws Hw) in Hf.
    injection Hf as <-. unfold nonneg_fields, counts_only. cbn.
    repeat split; try discriminate; try assumption; lia. }
  rewrite (extract_words self text Hws Hw) in Hf.
  injection Hf as <-.
  assert (Hpos : (0 < llen (_tokenize_words text))%Z).
  { pose proof (llen_nonneg (_tokenize_words text)).
    assert (llen (_tokenize_words text) <> 0%Z) by now rewrite llen_nil_iff.
    lia. }
  assert (Hsc0 : (0 < _count_sentences text)%Z) by lia.
  unfold nonneg_fields.
  cbn [char_count word_count sentence_count avg_word_length
       avg_sentence_length long_word_ratio reading_grade_level
       exclamation_ratio question_ratio caps_word_count caps_ratio
       hedge_count hedge_density certainty_count contraction_ratio
       politeness_count first_person_ratio urgency_word_count
       imperative_count filler_ratio negative_emotion_count
       negative_emotion_density absolutist_count absolutist_density].
  split; [split|].
  - repeat split;
      first [ exact Hlen | apply llen_nonneg | apply count_matches_nonneg
            | apply count_imperatives_nonneg | lia ].
  - repeat split;
      try (apply ratio_nonneg;
           first [ exact Hpos | exact Hsc0 | apply llen_nonneg
                 | apply count_matches_nonneg
                 | unfold Py.count; lia | lia ]).
    + destruct (map len (_tokenize_words text)) eqn:Hl; [discriminate|].
      rewrite <- Hl. unfold np_mean. rewrite llen_map.
      apply ratio_nonneg; [apply sum_len_nonneg|exact Hpos].
    + apply Qle_trans with 0.0; [discriminate|apply Q.le_max_l].
  - apply ratio_le_one; [|exact Hpos].
    etransitivity; [apply llen_filter_le|]. rewrite llen_map. lia.
Qed.

(** ** Bounds of the composite scores *)

Lemma capped_term (x k : Q) :
  0 <= x -> 0 <= k -> 0 <= Qmin (x * k) 1.0 /\ Qmin (x * k) 1.0 <= 1.
Proof.
  intros Hx Hk.
  assert (Hxk : 0 <= x * k) by (apply Qmult_le_0_compat; assumption).
  destruct (Q.min_spec (x * k) 1.0) as [[H1 H2]|[H1 H2]]; rewrite H2; lra.
Qed.

Lemma over_12 (x : Q) : x / 12.0 == x * (1 # 12).
Proof. unfold Qdiv. apply Qmult_comp; reflexivity. Qed.

Lemma over_25 (x : Q) : x / 25.0 == x * (1 # 25).
Proof. unfold Qdiv. apply Qmult_comp; reflexivity. Qed.

Lemma uncertainty_score_unit (f : LinguisticFeatures) :
  0 <= hedge_density f -> 0 <= question_ratio f ->
  unit_interval (uncertainty_score f).
Proof.
  intros Hh Hq. unfold unit_interval, uncertainty_score. cbv zeta.
  destruct (capped_term (hedge_density f) 2.0 Hh) as [? ?]; [lra|].
  destruct (capped_term (question_ratio f) 3.0 Hq) as [? ?]; [lra|].
  lra.
Qed.

Lemma formality_score_unit (f : LinguisticFeatures) :
  unit_interval (formality_score f).
Proof.
  unfold unit_interval, formality_score. cbv zeta.
  match goal with |- context [Qmin 1.0 ?e] => set (x := e) end.
  destruct (Q.min_spec 1.0 x) as [[H1 H2]|[H1 H2]];
    destruct (Q.max_spec 0.0 (Qmin 1.0 x)) as [[H3 H4]|[H3 H4]];
    rewrite H4; lra.
Qed.

(** C3 (as stated, refuted). A partial record with only
    [long_word_ratio] set, to 4, has no negative field and a
    [complexity_score] of 1.2: the long-word term is not capped. *)
Lemma complexity_score_above_one :
  exists f, nonneg_fields f /\ ~ complexity_score f <= 1.
Proof.
  exists {|
    char_count := 0; word_count := 0; sentence_count := 0;
    avg_word_length := 0; avg_sentence_length := 0; long_word_ratio := 4;
    reading_grade_level := 0; exclamation_ratio := 0; question_ratio := 0;
    caps_word_count := 0; caps_ratio := 0; hedge_count := 0;
    hedge_density := 0; certainty_count := 0; contraction_ratio := 0;
    politeness_count := 0; first_person_ratio := 0; urgency_word_count := 0;
    imperative_count := 0; filler_ratio := 0; negative_emotion_count := 0;
    negative_emotion_density := 0; absolutist_count := 0;
    absolutist_density := 0 |}.
  split.
  - unfold nonneg_fields. cbn. repeat split; discriminate.
  - vm_compute. intros H. apply H. reflexivity.
Qed.

Lemma scores_bounded (f : LinguisticFeatures) :
  nonneg_fields f ->
  unit_interval (uncertainty_score f)
  /\ unit_interval (uncertainty_score_v2 f)
  /\ unit_interval (emotional_intensity f)
  /\ unit_interval (formality_score f)
  /\ 0 <= complexity_score f
  /\ (long_word_ratio f <= 1 -> complexity_score f <= 1).
Proof.
  intros (_ & _ & Hasl & Hlwr & Hrgl & Hex & Hq & Hcaps & Hh & _ & Hfp & _ & Hneg & _).
  pose proof (uncertainty_score_unit f Hh Hq) as [Hu0 Hu1].
  split; [split; assumption|].
  split.
  { unfold unit_interval, uncertainty_score_v2. cbv zeta.
    destruct (capped_term (negative_emotion_density f) 2.0 Hneg) as [? ?]; [lra|].
    destruct (capped_term (first_person_ratio f) 2.0 Hfp) as [? ?]; [lra|].
    lra. }
  split.
  { unfold unit_interval, emotional_intensity. cbv zeta.
    destruct (capped_term (exclamation_ratio f) 5.0 Hex) as [? ?]; [lra|].
    destruct (capped_term (caps_ratio f) 3.0 Hcaps) as [? ?]; [lra|].
    lra. }
  split; [apply formality_score_unit|].
  unfold complexity_score. cbv zeta.
  rewrite over_12, over_25.
  destruct (capped_term (reading_grade_level f) (1 # 12) Hrgl) as [? ?]; [lra|].
  destruct (capped_term (avg_sentence_length f) (1 # 25) Hasl) as [? ?]; [lra|].
  split; [|intros Hle]; lra.
Qed.

(** C3 (amended). For every record without a negative field,
    [uncertainty_score], [uncertainty_score_v2], [emotional_intensity]
    and [formality_score] lie in [0,1]: the first three because each of
    their terms is capped at 1 before it is weighted, [formality_score]
    because it is clamped.  [complexity_score] is at least 0, and at most 1
    when [long_word_ratio] is at most 1: its long-word term is weighted but
    not capped.  A record that [extract] returns has no negative field and
    a [long_word_ratio] of at most 1, so all five of its scores lie in
    [0,1]. *)
Theorem composite_scores_bounded (f : LinguisticFeatures) :
  nonneg_fields f ->
  (unit_interval (uncertainty_score f)
   /\ unit_interval (uncertainty_score_v2 f)
   /\ unit_interval (emotional_intensity f)
   /\ unit_interval (formality_score f)
   /\ 0 <= complexity_score f
   /\ (long_word_ratio f <= 1 -> complexity_score f <= 1))
  /\ (forall self text,
        extract self text = Ok f ->
        long_word_ratio f <= 1 /\ unit_interval (complexity_score f)).
Proof.
  intros Hnn. split; [apply scores_bounded, Hnn|].
  intros self text Hf.
  destruct (extract_nonneg self text f Hf) as [_ Hle].
  destruct (scores_bounded f Hnn) as (_ & _ & _ & _ & H0 & H1).
  split; [exact Hle|]. split; [exact H0|apply H1, Hle].
Qed.

(** The default record. *)
Lemma composite_scores_bounded_witness :
  unit_interval (uncertainty_score LinguisticFeatures_default)
  /\ unit_interval (formality_score LinguisticFeatures_default)
  /\ complexity_score LinguisticFeatures_default <= 1.
Proof.
  assert (Hnn : nonneg_fields LinguisticFeatures_default).
  { unfold nonneg_fields. cbn. repeat split; discriminate. }
  destruct (composite_scores_bounded LinguisticFeatures_default Hnn)
    as ((Hu & _ & _ & Hf & _ & Hc) & _).
  split; [exact Hu|]. split; [exact Hf|].
  apply Hc. discriminate.
Defined.

(** ** Bounds of the word-count ratios *)

(** C2 (as stated, refuted). Two ratios exceed 1.  In [1'2 3'4 a] the
    contraction pattern, whose [\w] admits digits, matches twice while the
    text has one word, so [contraction_ratio] is 2; in [um'um], one word,
    the filler [um] matches twice on word boundaries, so [filler_ratio]
    is 2. *)
Lemma contraction_and_filler_ratio_above_one :
  (exists f, extract LinguisticExtractor_default (lit "1'2 3'4 a") = Ok f
             /\ word_count f = 1%Z /\ contraction_ratio f == 2
             /\ ~ unit_interval (contraction_ratio f))
  /\ (exists f, extract LinguisticExtractor_default (lit "um'um") = Ok f
                /\ word_count f = 1%Z /\ filler_ratio f == 2
                /\ ~ unit_interval (filler_ratio f)).
Proof.
  split; (eexists; split; [vm_compute; reflexivity|]);
    (split; [reflexivity|]); (split; [reflexivity|]);
    intros [_ H]; vm_compute in H; apply H; reflexivity.
Qed.

(** C2 (amended). For every text, [long_word_ratio], [caps_ratio] and
    [first_person_ratio] lie in [0,1]; [contraction_ratio] and
    [filler_ratio] are at least 0, with no upper bound stated; and each of
    the five is 0 whenever [word_count = 0]. *)
Theorem word_ratios_bounded (self : LinguisticExtractor) (text : str) :
  exists f, extract self text = Ok f
            /\ unit_interval (long_word_ratio f)
            /\ unit_interval (caps_ratio f)
            /\ unit_interval (first_person_ratio f)
            /\ 0 <= contraction_ratio f
            /\ 0 <= filler_ratio f
            /\ (word_count f = 0%Z -> word_ratios_zero f).
Proof.
  assert (Hzero : unit_interval 0) by (split; discriminate).
  assert (H00 : 0 <= 0) by discriminate.
  destruct (whitespace_only text) eqn:Hws.
  - exists LinguisticFeatures_default.
    split; [apply extract_whitespace, Hws|].
    do 5 (split; [assumption|]). intros _. apply default_ratios_zero.
  - destruct (tokens_nil_dec text) as [Hw|Hw].
    + exists (counts_only text).
      split; [apply extract_no_words; assumption|].
      do 5 (split; [assumption|]). intros _. apply counts_only_ratios_zero.
    + eexists. split; [apply (extract_words self text Hws Hw)|].
      assert (Hpos : (0 < llen (_tokenize_words text))%Z).
      { pose proof (llen_nonneg (_tokenize_words text)).
        pose proof (proj1 (llen_nil_iff (_tokenize_words text))). 
        destruct (Z.eq_dec (llen (_tokenize_words text)) 0); [tauto|lia]. }
      cbn [long_word_ratio caps_ratio first_person_ratio contraction_ratio
           filler_ratio word_count].
      split; [apply fraction_unit; [apply llen_map|assumption]|].
      split; [apply fraction_unit; [reflexivity|assumption]|].
      split; [apply fraction_unit; [apply llen_map|assumption]|].
      split; [apply ratio_nonneg; [apply llen_nonneg|assumption]|].
      split; [apply ratio_nonneg; [apply count_matches_nonneg|assumption]|].
      intros H. lia.
Qed.

(** The text [7 + 8?], without a word. *)
Lemma word_ratios_bounded_witness :
  exists f, extract LinguisticExtractor_default (lit "7 + 8?") = Ok f
            /\ word_ratios_zero f.
Proof.
  destruct (word_ratios_bounded LinguisticExtractor_default (lit "7 + 8?"))
    as (f & Hf & _ & _ & _ & _ & _ & Hz).
  exists f. split; [exact Hf|].
  apply Hz. vm_compute in Hf. injection Hf as <-. reflexivity.
Defined.

(** ** First person and contractions *)

Lemma str_eqb_eq (a b : str) : str_eqb a b = true <-> a = b.
Proof.
  unfold str_eqb. destruct (list_eq_dec ascii_dec a b); split;
    intros H; try reflexivity; try assumption; try discriminate; contradiction.
Qed.

Lemma str_in_In (w : str) (l : list str) : str_in w l = true <-> In w l.
Proof.
  unfold str_in. rewrite existsb_exists. split.
  - intros (x & Hx & Heq). apply str_eqb_eq in Heq. now subst.
  - intros H. exists w. split; [assumption|now apply str_eqb_eq].
Qed.




Lemma filter_none {A : Type} (p : A -> bool) (l : list A) :
  (forall x, In x l -> p x = false) -> filter p l = [].
Proof.
  induction l as [|a l IH]; intros H; cbn; [reflexivity|].
  rewrite (H a) by now left. apply IH. intros x Hx. apply H. now right.
Qed.

Lemma ratio_zero (b : Z) : inject_Z 0 / inject_Z b == 0.
Proof. unfold Qdiv. apply Qmult_0_l. Qed.

Lemma last_cons {A : Type} (a d : A) (l : list A) : last (a :: l) d = last l a.
Proof.
  revert a d. induction l as [|b l IH]; intros a d; [reflexivity|].
  change (last (a :: b :: l) d) with (last (b :: l) d).
  now rewrite !IH.
Qed.

Lemma letter_is_word (c : ascii) : ascii_letter c = true -> word_char c = true.
Proof.
  intros H. unfold word_char, isalnum. now rewrite H.
Qed.

(** A greedy [+] takes a whole run when the rest of the pattern matches
    after it. *)
Lemma plus_whole_run (cls : ascii -> bool) (k : Re.cont) (u rest : str)
  (e : nat) :
  forall prev n,
    u <> [] -> forallb cls u = true ->
    k (last_char prev u) rest (n + length u)%nat = Some e ->
    match rest with [] => True | c :: _ => cls c = false end ->
    Re.plus_k cls k prev (u ++ rest) n = Some e.
Proof.
  induction u as [|c u IH]; intros prev n Hne Hall Hk Hrest; [congruence|].
  cbn [forallb] in Hall. apply andb_true_iff in Hall. destruct Hall as [Hc Hall].
  cbn [app Re.plus_k]. rewrite Hc.
  unfold last_char in Hk. cbn [map] in Hk. rewrite last_cons in Hk.
  cbn [length] in Hk. replace (n + S (length u))%nat with (S n + length u)%nat in Hk by lia.
  destruct u as [|d u].
  - cbn [app]. cbn [map last length] in Hk. rewrite Nat.add_0_r in Hk.
    destruct rest as [|r rest]; cbn [Re.plus_k].
    + exact Hk.
    + rewrite Hrest. exact Hk.
  - rewrite (IH (Some c) (S n)); [reflexivity|discriminate|assumption| |assumption].
    exact Hk.
Qed.

Lemma last_letter_is_word (prev : option ascii) (u : str) :
  u <> [] -> forallb ascii_letter u = true ->
  Re.is_word (last_char prev u) = true.
Proof.
  revert prev. induction u as [|c u IH]; intros prev Hne Hall; [congruence|].
  cbn [forallb] in Hall. apply andb_true_iff in Hall. destruct Hall as [Hc Hall].
  unfold last_char. cbn [map]. rewrite last_cons.
  destruct u as [|d u].
  - cbn. now apply letter_is_word.
  - apply (IH (Some c)); [discriminate|assumption].
Qed.

Lemma findall_skips_all (r : Re.regex) (s : str) (prev : option ascii) :
  (forall p, Re.match_at r p [] = None) ->
  Re.findall_from r (length s) prev s = [].
Proof.
  intros Hend. revert prev. induction s as [|c s IH]; intros prev.
  - cbn. now rewrite Hend.
  - cbn [length Re.findall_from]. apply IH.
Qed.

(** A contraction standing alone, letters, an apostrophe, letters, is one
    token. *)
Lemma contraction_single_token (u v : str) :
  u <> [] -> v <> [] ->
  forallb ascii_letter u = true -> forallb ascii_letter v = true ->
  _tokenize_words (u ++ apostrophe :: v) = [u ++ apostrophe :: v].
Proof.
  intros Hu Hv Lu Lv.
  assert (Hm : Re.match_at word_pattern None (u ++ apostrophe :: v)
               = Some (length (u ++ apostrophe :: v))).
  { unfold Re.match_at, word_pattern. cbn [Re.exec].
    assert (Hb : Re.boundary None (u ++ apostrophe :: v) = true).
    { destruct u as [|c u]; [congruence|]. cbn.
      cbn [forallb] in Lu. apply andb_true_iff in Lu.
      apply letter_is_word, Lu. }
    rewrite Hb.
    apply plus_whole_run; [assumption|assumption| |reflexivity].
    cbn [Re.lit_k]. rewrite Ascii.eqb_refl.
    rewrite <- (app_nil_r v) at 1.
    rewrite (plus_whole_run ascii_letter _ v []
               (length (u ++ apostrophe :: v))); [reflexivity|assumption|assumption| |exact I].
    unfold Re.boundary. rewrite last_letter_is_word by assumption.
    cbn. f_equal. rewrite length_app. cbn [length]. lia. }
  unfold _tokenize_words, Re.findall.
  destruct (u ++ apostrophe :: v) as [|c s] eqn:Hs.
  { destruct u; discriminate Hs. }
  cbn [Re.findall_from]. rewrite Hm.
  rewrite firstn_all. cbn [length pred].
  rewrite findall_skips_all; [reflexivity|].
  intros p. unfold Re.match_at, word_pattern. cbn.
  destruct (Re.boundary p []); reflexivity.
Qed.

(** ** Sentences and exclamation marks *)

Lemma plus_span (cls : ascii -> bool) (prev : option ascii) (s : str) (n : nat) :
  Re.plus_k cls (fun _ _ m => Some m) prev s n
  = match span cls s with
    | O => None
    | S m => Some (n + S m)%nat
    end.
Proof.
  revert prev n. induction s as [|c s IH]; intros prev n; cbn; [reflexivity|].
  destruct (cls c); [|reflexivity].
  rewrite IH. destruct (span cls s); f_equal; lia.
Qed.

(** [re.findall] of a [+] over a class finds the maximal runs. *)
Lemma findall_plus_runs (cls : ascii -> bool) (s : str) :
  forall prev,
    length (Re.findall_from (Re.Plus cls) 0 prev s) = count_runs cls false s
    /\ length (Re.findall_from (Re.Plus cls) (span cls s) prev s)
       = count_runs cls true s.
Proof.
  induction s as [|c s IH]; intros prev.
  - split; reflexivity.
  - assert (H0 : length (Re.findall_from (Re.Plus cls) 0 prev (c :: s))
                 = count_runs cls false (c :: s)).
    { cbn [Re.findall_from]. unfold Re.match_at. cbn [Re.exec].
      rewrite plus_span. cbn [span count_runs].
      destruct (cls c).
      - cbn [length Nat.add pred]. f_equal. apply IH.
      - apply IH. }
    split; [exact H0|].
    cbn [span count_runs] in *. destruct (cls c).
    + cbn [Re.findall_from]. apply IH.
    + exact H0.
Qed.

Lemma count_sentences_runs (text : str) :
  _count_sentences text
  = Z.max 1 (Z.of_nat (count_runs terminal false text)).
Proof.
  unfold _count_sentences, Re.findall, terminal_pattern, llen. cbv zeta.
  rewrite (proj1 (findall_plus_runs terminal text None)).
  destruct (Z.eqb_spec (Z.of_nat (count_runs terminal false text)) 0); lia.
Qed.

Lemma count_one_char (c : ascii) (s : str) :
  count_from [c] 0 s = length (filter (Ascii.eqb c) s).
Proof.
  induction s as [|d s IH]; [reflexivity|].
  cbn [count_from startswith filter length pred].
  rewrite andb_true_r. destruct (Ascii.eqb c d); cbn [length]; now rewrite IH.
Qed.

Lemma count_exclamations (text : str) :
  Py.count text (lit "!") = Z.of_nat (exclamation_marks text).
Proof.
  unfold Py.count, exclamation_marks. cbn [lit list_ascii_of_string].
  now rewrite count_one_char.
Qed.

Lemma count_runs_inrun (cls : ascii -> bool) (s : str) :
  (count_runs cls true s <= count_runs cls false s <= S (count_runs cls true s))%nat.
Proof.
  destruct s as [|c s]; cbn; [lia|]. destruct (cls c); lia.
Qed.

(** Adding exclamation marks adds no fewer marks than sentences, and
    removes neither. *)
Lemma adds_exclamations_runs (t t' : str) :
  adds_exclamations t t' ->
  (exclamation_marks t <= exclamation_marks t')%nat
  /\ forall inrun,
       (count_runs terminal inrun t <= count_runs terminal inrun t')%nat
       /\ (count_runs terminal inrun t' + exclamation_marks t
           <= count_runs terminal inrun t + exclamation_marks t')%nat.
Proof.
  unfold exclamation_marks.
  induction 1 as [|c t t' _ [IHe IHr]|t t' _ [IHe IHr]].
  - split; [lia|]. intros inrun. cbn. lia.
  - split.
    + cbn [filter]. destruct (Ascii.eqb "!" c); cbn [length]; lia.
    + intros inrun. cbn [count_runs filter].
      destruct (terminal c).
      * destruct (IHr true) as [H1 H2].
        destruct (Ascii.eqb "!" c); cbn [length]; lia.
      * destruct (IHr false) as [H1 H2].
        destruct (Ascii.eqb "!" c); cbn [length]; lia.
  - split.
    + cbn [filter]. cbn [Ascii.eqb Bool.eqb length]. lia.
    + intros inrun. destruct (IHr true) as [H1 H2].
      pose proof (count_runs_inrun terminal t) as Hb.
      change (count_runs terminal inrun ("!"%char :: t'))
        with ((if inrun then 0 else 1) + count_runs terminal true t')%nat.
      change (length (filter (Ascii.eqb "!") ("!"%char :: t')))
        with (S (length (filter (Ascii.eqb "!") t'))).
      destruct inrun; lia.
Qed.

Lemma adds_exclamations_whitespace (t t' : str) :
  adds_exclamations t t' ->
  whitespace_only t' = true -> whitespace_only t = true.
Proof.
  unfold whitespace_only.
  induction 1 as [|c t t' _ IH|t t' _ IH]; cbn [forallb]; intros Hw.
  - reflexivity.
  - apply andb_true_iff in Hw. apply andb_true_iff. split; [apply Hw|apply IH, Hw].
  - apply andb_true_iff in Hw. destruct Hw as [Hw _]. discriminate Hw.
Qed.

Lemma ratio_le_cross (a b c d : Z) :
  (0 < b)%Z -> (0 < d)%Z -> (a * d <= c * b)%Z ->
  inject_Z a / inject_Z b <= inject_Z c / inject_Z d.
Proof.
  intros Hb Hd H.
  destruct b as [|pb|pb]; try lia. destruct d as [|pd|pd]; try lia.
  unfold Qle, Qdiv, Qmult, Qinv, inject_Z. cbn [Qnum Qden].
  rewrite !Z.mul_1_r, !Pos.mul_1_l. exact H.
Qed.

Lemma ratio_ge_one (a b : Z) :
  (0 < b)%Z -> (b <= a)%Z -> 1 <= inject_Z a / inject_Z b.
Proof.
  intros Hb H.
  apply Qle_shift_div_l.
  - change 0 with (inject_Z 0). now rewrite <- Zlt_Qlt.
  - rewrite Qmult_1_l. now rewrite <- Zle_Qle.
Qed.

(** The exclamation term of [emotional_intensity] does not decrease when
    marks are added, even where they add sentences. *)
Lemma exclaim_term_monotone (e e' n n' : Z) :
  (0 <= e <= e')%Z -> (1 <= n <= n')%Z -> (n' - n <= e' - e)%Z ->
  Qmin (inject_Z e / inject_Z n * 5.0) 1.0
  <= Qmin (inject_Z e' / inject_Z n' * 5.0) 1.0.
Proof.
  intros He Hn Hd.
  destruct (Z_le_gt_dec e n) as [Hle|Hgt].
  - apply Q.min_le_compat_r. apply Qmult_le_compat_r; [|discriminate].
    apply ratio_le_cross; [lia|lia|]. nia.
  - assert (H1 : 1 <= inject_Z e' / inject_Z n') by (apply ratio_ge_one; lia).
    rewrite (Q.min_r (inject_Z e' / inject_Z n' * 5.0) 1.0) by lra.
    apply Q.le_min_r.
Qed.

Lemma emphasis_nonneg (self : LinguisticExtractor) (text : str)
  (f : LinguisticFeatures) :
  extract self text = Ok f -> 0 <= exclamation_ratio f /\ 0 <= caps_ratio f.
Proof.
  intros Hf.
  destruct (whitespace_only text) eqn:Hws.
  { rewrite (extract_whitespace self text Hws) in Hf.
    injection Hf as <-. split; discriminate. }
  destruct (tokens_nil_dec text) as [Hw|Hw].
  { rewrite (extract_no_words self text Hws Hw) in Hf.
    injection Hf as <-. split; discriminate. }
  rewrite (extract_words self text Hws Hw) in Hf.
  injection Hf as <-. cbn [exclamation_ratio caps_ratio].
  pose proof (count_sentences_pos text).
  pose proof (llen_nonneg (_tokenize_words text)).
  assert (llen (_tokenize_words text) <> 0%Z) by now rewrite llen_nil_iff.
  split; apply ratio_nonneg; try lia.
  - rewrite count_exclamations. lia.
  - apply llen_nonneg.
Qed.

Lemma emotional_intensity_nonneg (f : LinguisticFeatures) :
  0 <= exclamation_ratio f -> 0 <= caps_ratio f -> 0 <= emotional_intensity f.
Proof.
  intros He Hc. unfold emotional_intensity. cbv zeta.
  destruct (capped_term (exclamation_ratio f) 5.0 He) as [? ?]; [lra|].
  destruct (capped_term (caps_ratio f) 3.0 Hc) as [? ?]; [lra|].
  lra.
Qed.

Lemma emotional_intensity_zero (f : LinguisticFeatures) :
  exclamation_ratio f = 0 -> caps_ratio f = 0 -> emotional_intensity f <= 0.
Proof.
  intros He Hc. unfold emotional_intensity. rewrite He, Hc.
  vm_compute. discriminate.
Qed.

(** C5 (as stated, refuted).  Adding one mark to [a!! b] adds a
    sentence, and [exclamation_ratio] falls from 2 to 3/2; adding one mark
    inside the word of [AB!] splits it into two one-letter words, none of
    them a caps word, and [emotional_intensity] falls from 1 to 1/2. *)
Lemma added_exclamation_lowers_scores :
  (exists f f',
      adds_exclamations (lit "a!! b") (lit "a!! b!")
      /\ extract LinguisticExtractor_default (lit "a!! b") = Ok f
      /\ extract LinguisticExtractor_default (lit "a!! b!") = Ok f'
      /\ exclamation_ratio f == 2 /\ exclamation_ratio f' == 3 # 2
      /\ ~ exclamation_ratio f <= exclamation_ratio f')
  /\ (exists f f',
         adds_exclamations (lit "AB!") (lit "A!B!")
         /\ extract LinguisticExtractor_default (lit "AB!") = Ok f
         /\ extract LinguisticExtractor_default (lit "A!B!") = Ok f'
         /\ emotional_intensity f == 1 /\ emotional_intensity f' == 1 # 2
         /\ ~ emotional_intensity f <= emotional_intensity f').
Proof.
  split.
  - do 2 eexists.
    split; [cbn; repeat constructor|].
    split; [vm_compute; reflexivity|].
    split; [vm_compute; reflexivity|].
    split; [reflexivity|]. split; [reflexivity|].
    intros H. vm_compute in H. apply H. reflexivity.
  - do 2 eexists.
    split; [cbn; repeat constructor|].
    split; [vm_compute; reflexivity|].
    split; [vm_compute; reflexivity|].
    split; [reflexivity|]. split; [reflexivity|].
    intros H. vm_compute in H. apply H. reflexivity.
Qed.

(** ** The lexical matcher *)

(** A literal matches where the text starts with it. *)
Lemma lit_startswith (p : str) (k : Re.cont) (prev : option ascii) (s : str)
  (n : nat) :
  Re.lit_k p k prev s n
  = if startswith p s
    then k (last_char prev p) (skipn (length p) s) (n + length p)%nat
    else None.
Proof.
  revert prev s n. induction p as [|c p IH]; intros prev s n.
  - cbn. f_equal. lia.
  - destruct s as [|d s]; [reflexivity|].
    cbn [Re.lit_k startswith]. destruct (Ascii.eqb_spec c d) as [<-|Hne].
    + rewrite IH. cbn [andb length skipn].
      unfold last_char. cbn [map]. rewrite last_cons.
      destruct (startswith p s); [|reflexivity]. f_equal. lia.
    + reflexivity.
Qed.

Lemma match_phrase (p : str) (prev : option ascii) (s : str) :
  Re.match_at (phrase_pattern p) prev s
  = if whole_word_at p prev s then Some (length p) else None.
Proof.
  unfold Re.match_at, phrase_pattern, whole_word_at. cbn [Re.exec].
  destruct (Re.boundary prev s); [|reflexivity].
  rewrite lit_startswith. cbn [andb Nat.add].
  destruct (startswith p s); reflexivity.
Qed.

Lemma startswith_app (p s : str) :
  startswith p s = true <-> exists rest, s = p ++ rest.
Proof.
  revert s. induction p as [|c p IH]; intros s.
  - cbn. split; [intros _; now exists s|reflexivity].
  - destruct s as [|d s]; cbn [startswith].
    + split; [discriminate|]. intros (rest & H). discriminate H.
    + rewrite andb_true_iff, IH. split.
      * intros (Hcd & rest & ->). apply Ascii.eqb_eq in Hcd. subst d.
        now exists rest.
      * intros (rest & H). injection H as -> ->.
        split; [apply Ascii.eqb_refl|now exists rest].
Qed.

(** Two occurrences of [p], the second [j] characters after the first
    with [j] below the length of [p], make [p] overlap itself at [j]. *)
Lemma overlap_prefix (p s : str) (j : nat) :
  (j <= length p)%nat ->
  startswith p s = true ->
  startswith p (skipn j s) = true ->
  startswith (skipn j p) p = true.
Proof.
  intros Hj H1 H2.
  apply startswith_app in H1. destruct H1 as (rest & ->).
  apply startswith_app in H2. destruct H2 as (rest' & H2).
  rewrite skipn_app in H2.
  replace (j - length p)%nat with 0%nat in H2 by lia. cbn [skipn] in H2.
  apply startswith_app.
  exists (skipn (length p - j) p).
  assert (Hlen : length (skipn j p) = (length p - j)%nat) by apply length_skipn.
  assert (Hf : firstn (length p - j) p = skipn j p).
  { apply (f_equal (firstn (length p - j))) in H2.
    rewrite <- Hlen in H2 at 1. rewrite firstn_app in H2.
    rewrite Nat.sub_diag, firstn_all in H2. cbn [firstn] in H2.
    rewrite app_nil_r in H2. rewrite H2.
    rewrite firstn_app. replace (length p - j - length p)%nat with 0%nat by lia.
    cbn [firstn]. now rewrite app_nil_r. }
  rewrite <- Hf. symmetry. apply firstn_skipn.
Qed.

Lemma prev_at_nth (s : str) (j : nat) (prev : option ascii) :
  (0 < j <= length s)%nat -> prev_at prev s j = nth_error s (pred j).
Proof.
  revert j prev. induction s as [|c s IH]; intros j prev Hj; cbn [length] in Hj.
  - lia.
  - destruct j as [|j]; [lia|]. cbn [prev_at pred].
    destruct j as [|j].
    + destruct s; reflexivity.
    + rewrite IH by lia. reflexivity.
Qed.

Lemma hd_skipn (s : str) (j : nat) : hd_error (skipn j s) = nth_error s j.
Proof.
  revert j. induction s as [|c s IH]; intros [|j]; cbn; try reflexivity.
  apply IH.
Qed.

Lemma boundary_inside (p rest : str) (prev : option ascii) (j : nat) :
  (0 < j < length p)%nat ->
  Re.boundary (prev_at prev (p ++ rest) j) (skipn j (p ++ rest))
  = Re.boundary (nth_error p (pred j)) (skipn j p).
Proof.
  intros Hj. unfold Re.boundary.
  rewrite prev_at_nth by (rewrite length_app; lia).
  rewrite !hd_skipn, !nth_error_app1 by lia. reflexivity.
Qed.

Lemma overlap_free_at (p : str) (j : nat) :
  overlap_free p = true -> (0 < j < length p)%nat -> overlaps_at p j = false.
Proof.
  unfold overlap_free. rewrite forallb_forall. intros H Hj.
  apply negb_true_iff, H, in_seq. lia.
Qed.

Lemma no_second_occurrence (p s : str) (j : nat) :
  overlap_free p = true -> char_in " "%char p = true ->
  startswith p s = true -> (0 < j < length p)%nat ->
  startswith p (skipn j s) = false.
Proof.
  intros Hfree Hsp Hs Hj.
  destruct (startswith p (skipn j s)) eqn:Hs'; [|reflexivity].
  pose proof (overlap_free_at p j Hfree Hj) as Hno.
  unfold overlaps_at in Hno.
  rewrite (overlap_prefix p s j) in Hno by (assumption || lia).
  rewrite Hsp in Hno. discriminate Hno.
Qed.

Lemma no_second_word (p s : str) (prev : option ascii) (j : nat) :
  overlap_free p = true ->
  whole_word_at p prev s = true -> (0 < j < length p)%nat ->
  whole_word_at p (prev_at prev s j) (skipn j s) = false.
Proof.
  intros Hfree Hs Hj.
  destruct (whole_word_at p (prev_at prev s j) (skipn j s)) eqn:Hs';
    [|reflexivity].
  unfold whole_word_at in Hs, Hs'.
  apply andb_true_iff in Hs. destruct Hs as [Hs _].
  apply andb_true_iff in Hs. destruct Hs as [_ Hs].
  apply andb_true_iff in Hs'. destruct Hs' as [Hs' _].
  apply andb_true_iff in Hs'. destruct Hs' as [Hb Hs'].
  pose proof (overlap_free_at p j Hfree Hj) as Hno.
  unfold overlaps_at in Hno.
  rewrite (overlap_prefix p s j) in Hno by (assumption || lia).
  apply startswith_app in Hs. destruct Hs as (rest & ->).
  rewrite boundary_inside in Hb by assumption.
  rewrite Hb, orb_true_r in Hno. discriminate Hno.
Qed.

(** [str.count] finds every occurrence of a phrase that cannot overlap
    itself, and never more than there are. *)
Lemma count_from_occurrences (p : str) :
  overlap_free p = true -> char_in " "%char p = true ->
  forall s k,
    (forall j, (j < k)%nat -> startswith p (skipn j s) = false) ->
    count_from p k s = occurrences p s.
Proof.
  intros Hfree Hsp. induction s as [|c s IH]; intros k Hk.
  - destruct k as [|k]; cbn [count_from occurrences].
    + destruct (startswith p []); reflexivity.
    + here_none Hk. reflexivity.
  - destruct k as [|k]; cbn [count_from occurrences].
    + destruct (startswith p (c :: s)) eqn:Hs.
      * cbn [Nat.add]. f_equal. apply IH. intros j Hj.
        apply (no_second_occurrence p (c :: s) (S j) Hfree Hsp Hs). lia.
      * apply IH. intros j Hj. lia.
    + here_none Hk. cbn [Nat.add].
      apply IH. intros j Hj. apply (Hk (S j)). lia.
Qed.

Lemma count_from_le (p s : str) (k : nat) :
  (count_from p k s <= occurrences p s)%nat.
Proof.
  revert k. induction s as [|c s IH]; intros k.
  - destruct k; cbn [count_from occurrences];
      [destruct (startswith p [])|]; lia.
  - destruct k as [|k]; cbn [count_from occurrences].
    + destruct (startswith p (c :: s)).
      * specialize (IH (pred (length p))). lia.
      * specialize (IH 0%nat). lia.
    + specialize (IH k). lia.
Qed.

(** [re.findall] of [\bphrase\b] finds every whole-word occurrence of a
    phrase that cannot overlap itself, and never more than there are. *)
Lemma findall_word_occurrences (p : str) :
  overlap_free p = true ->
  forall s k prev,
    (forall j, (j < k)%nat ->
               whole_word_at p (prev_at prev s j) (skipn j s) = false) ->
    length (Re.findall_from (phrase_pattern p) k prev s)
    = word_occurrences p prev s.
Proof.
  intros Hfree. induction s as [|c s IH]; intros k prev Hk.
  - destruct k as [|k]; cbn [Re.findall_from word_occurrences].
    + rewrite match_phrase.
      destruct (whole_word_at p prev []); reflexivity.
    + here_none Hk. reflexivity.
  - destruct k as [|k]; cbn [Re.findall_from word_occurrences].
    + rewrite match_phrase.
      destruct (whole_word_at p prev (c :: s)) eqn:Hs.
      * cbn [length Nat.add]. f_equal. apply IH. intros j Hj.
        apply (no_second_word p (c :: s) prev (S j) Hfree Hs). lia.
      * apply IH. intros j Hj. lia.
    + here_none Hk. cbn [Nat.add].
      apply IH. intros j Hj. apply (Hk (S j)). lia.
Qed.

Lemma findall_word_le (p s : str) (k : nat) (prev : option ascii) :
  (length (Re.findall_from (phrase_pattern p) k prev s)
   <= word_occurrences p prev s)%nat.
Proof.
  revert k prev. induction s as [|c s IH]; intros k prev.
  - destruct k; cbn [Re.findall_from word_occurrences length]; [|lia].
    rewrite match_phrase. destruct (whole_word_at p prev []); cbn; lia.
  - destruct k as [|k]; cbn [Re.findall_from word_occurrences].
    + rewrite match_phrase. destruct (whole_word_at p prev (c :: s)).
      * specialize (IH (pred (length p)) (Some c)). cbn [length]. lia.
      * specialize (IH 0%nat (Some c)). lia.
    + specialize (IH k (Some c)). lia.
Qed.

Lemma count_matches_sum (text : str) (word_list : list str) :
  _count_matches text word_list = sum (map (phrase_matches text) word_list).
Proof.
  unfold _count_matches.
  assert (H : forall start,
             fold_left
               (fun count phrase =>
                  if char_in " "%char phrase
                  then (count + Py.count text phrase)%Z
                  else (count + llen (Re.findall (phrase_pattern phrase) text))%Z)
               word_list start
             = (start + sum (map (phrase_matches text) word_list))%Z).
  { induction word_list as [|p l IH]; intros start; cbn [fold_left map sum fold_right].
    - lia.
    - rewrite IH. unfold phrase_matches, sum.
      destruct (char_in " " p); lia. }
  rewrite H. lia.
Qed.

Lemma phrase_in_sum (text p : str) (word_list : list str) :
  In p word_list ->
  (phrase_matches text p <= sum (map (phrase_matches text) word_list))%Z.
Proof.
  assert (Hnn : forall q, (0 <= phrase_matches text q)%Z).
  { intros q. unfold phrase_matches, Py.count, llen.
    destruct (char_in " " q); lia. }
  assert (Hsum : forall l, (0 <= sum (map (phrase_matches text) l))%Z).
  { induction l as [|q l IH]; cbn [map sum fold_right]; [lia|].
    specialize (Hnn q). unfold sum in IH. lia. }
  induction word_list as [|q l IH]; intros Hin; [contradiction|].
  cbn [map sum fold_right]. destruct Hin as [->|Hin].
  - specialize (Hsum l). unfold sum in Hsum. lia.
  - specialize (IH Hin). specialize (Hnn q). unfold sum in IH. lia.
Qed.

Lemma phrase_matches_reference (text p : str) :
  overlap_free p = true -> phrase_matches text p = reference_term text p.
Proof.
  intros Hfree. unfold phrase_matches, reference_term.
  destruct (char_in " " p) eqn:Hsp.
  - unfold Py.count. f_equal.
    apply (count_from_occurrences p Hfree Hsp). intros j Hj. lia.
  - unfold llen, Re.findall. f_equal.
    apply (findall_word_occurrences p Hfree). intros j Hj. lia.
Qed.

Lemma phrase_matches_le (text p : str) :
  (phrase_matches text p <= reference_term text p)%Z.
Proof.
  unfold phrase_matches, reference_term.
  destruct (char_in " " p).
  - unfold Py.count. apply inj_le, count_from_le.
  - unfold llen, Re.findall. apply inj_le, findall_word_le.
Qed.

(** C8 (as stated, refuted).  An occurrence that overlaps one already
    counted is skipped: [a a] occurs twice in [a a a] and is counted once,
    the whole word [a-a] occurs twice in [a-a-a] and is counted once, and
    with the politeness list of the program, [excuse me] occurs twice in
    [excuse mexcuse me] and is counted once. *)
Lemma overlapping_occurrences_counted_once :
  (_count_matches (lit "a a a") [lit "a a"] = 1%Z
   /\ reference_count_matches (lit "a a a") [lit "a a"] = 2%Z)
  /\ (_count_matches (lit "a-a-a") [lit "a-a"] = 1%Z
      /\ reference_count_matches (lit "a-a-a") [lit "a-a"] = 2%Z)
  /\ (_count_matches (lit "excuse mexcuse me") POLITENESS_MARKERS = 1%Z
      /\ reference_count_matches (lit "excuse mexcuse me") POLITENESS_MARKERS
         = 2%Z)
  /\ ~ (forall text word_list,
          _count_matches text word_list
          = reference_count_matches text word_list).
Proof.
  split; [split; vm_compute; reflexivity|].
  split; [split; vm_compute; reflexivity|].
  split; [split; vm_compute; reflexivity|].
  intros H. specialize (H (lit "a a a") [lit "a a"]).
  vm_compute in H. discriminate H.
Qed.

(** C8 (amended).  [_count_matches] returns the sum, over the phrases of
    the list, of the occurrences found by a scan from left to right that
    resumes after the end of each occurrence found: substring occurrences
    for a phrase with a space, whole-word occurrences on word boundaries
    for a phrase without.  That sum never exceeds the number of all
    occurrences, and equals it when no phrase of the list can overlap a
    copy of itself, which holds for the hedge, urgency, filler,
    negative-emotion and absolutist lists.  Every phrase of a list adds
    its own count to the list's count, so [always], in both the certainty
    and the absolutist list, counts in both. *)
Theorem count_matches_reference (text : str) (word_list : list str) :
  _count_matches text word_list = sum (map (phrase_matches text) word_list)
  /\ (_count_matches text word_list
      <= reference_count_matches text word_list)%Z
  /\ (forallb overlap_free word_list = true ->
      _count_matches text word_list = reference_count_matches text word_list)
  /\ forallb overlap_free
       (HEDGE_WORDS ++ URGENCY_WORDS ++ FILLER_WORDS
        ++ NEGATIVE_EMOTION_WORDS ++ ABSOLUTIST_WORDS) = true
  /\ (forall phrase, In phrase word_list ->
        (phrase_matches text phrase <= _count_matches text word_list)%Z)
  /\ (Z.of_nat (word_occurrences (lit "always") None text)
      <= _count_matches text CERTAINTY_MARKERS)%Z
  /\ (Z.of_nat (word_occurrences (lit "always") None text)
      <= _count_matches text ABSOLUTIST_WORDS)%Z.
Proof.
  assert (Halways : forall l, In (lit "always") l ->
            (Z.of_nat (word_occurrences (lit "always") None text)
             <= _count_matches text l)%Z).
  { intros l Hin. rewrite count_matches_sum.
    etransitivity; [|apply (phrase_in_sum text (lit "always") l Hin)].
    rewrite phrase_matches_reference by reflexivity.
    unfold reference_term. cbn. lia. }
  split; [apply count_matches_sum|].
  split.
  { rewrite count_matches_sum. unfold reference_count_matches.
    induction word_list as [|p l IH]; cbn [map sum fold_right]; [lia|].
    pose proof (phrase_matches_le text p). unfold sum in IH. lia. }
  split.
  { intros Hfree. rewrite count_matches_sum. unfold reference_count_matches.
    f_equal. apply map_ext_in. intros p Hin.
    rewrite forallb_forall in Hfree.
    apply (phrase_matches_reference text p (Hfree p Hin)). }
  split; [vm_compute; reflexivity|].
  split.
  { intros phrase Hin. rewrite count_matches_sum. now apply phrase_in_sum. }
  split; apply Halways, str_in_In; reflexivity.
Qed.

(** Two whole-word occurrences of [always] against the absolutist list. *)
Lemma count_matches_reference_witness :
  _count_matches (lit "it is always, always the worst") ABSOLUTIST_WORDS = 2%Z
  /\ reference_count_matches (lit "it is always, always the worst")
       ABSOLUTIST_WORDS = 2%Z.
Proof.
  destruct (count_matches_reference (lit "it is always, always the worst")
              ABSOLUTIST_WORDS) as (_ & _ & Heq & _).
  assert (Hfree : forallb overlap_free ABSOLUTIST_WORDS = true) by reflexivity.
  specialize (Heq Hfree).
  split; [rewrite Heq|]; vm_compute; reflexivity.
Defined.

(** * Further properties of the extractor *)

(** ** What the patterns match *)

Lemma plus_inv (cls : ascii -> bool) (k : Re.cont) (s : str) :
  forall prev n e,
    Re.plus_k cls k prev s n = Some e ->
    exists m, (1 <= m <= span cls s)%nat
              /\ k (prev_at prev s m) (skipn m s) (n + m)%nat = Some e.
Proof.
  induction s as [|c s IH]; intros prev n e H; cbn [Re.plus_k] in H;
    [discriminate|].
  cbn [span]. destruct (cls c); [|discriminate].
  destruct (Re.plus_k cls k (Some c) s (S n)) as [e'|] eqn:Hin.
  - injection H as ->. apply IH in Hin. destruct Hin as (m & Hm & Hk).
    exists (S m). split; [lia|].
    cbn [prev_at skipn]. replace (n + S m)%nat with (S n + m)%nat by lia.
    exact Hk.
  - exists 1%nat. split; [lia|].
    cbn [prev_at skipn]. replace (n + 1)%nat with (S n) by lia.
    destruct s; exact H.
Qed.

Lemma span_letters (cls : ascii -> bool) (s : str) (m : nat) :
  (m <= span cls s)%nat ->
  forallb cls (firstn m s) = true /\ length (firstn m s) = m.
Proof.
  revert m. induction s as [|c s IH]; intros m Hm; cbn [span] in Hm.
  - replace m with 0%nat by lia. split; reflexivity.
  - destruct m as [|m]; [split; reflexivity|].
    destruct (cls c) eqn:Hc; [|lia].
    destruct (IH m ltac:(lia)) as [H1 H2].
    cbn [firstn forallb length]. rewrite Hc, H1, H2. split; reflexivity.
Qed.

Lemma firstn_plus {A : Type} (a b : nat) (l : list A) :
  firstn (a + b) l = firstn a l ++ firstn b (skipn a l).
Proof.
  revert l. induction a as [|a IH]; intros l; [reflexivity|].
  destruct l as [|x l]; cbn [Nat.add firstn skipn app].
  - now rewrite firstn_nil.
  - now rewrite IH.
Qed.

(** A match of the word pattern is a word token that starts with a
    letter. *)
Lemma word_pattern_match (prev : option ascii) (s : str) (e : nat) :
  Re.match_at word_pattern prev s = Some e ->
  word_token (firstn e s) /\ (1 <= span ascii_letter s)%nat.
Proof.
  unfold Re.match_at, word_pattern. cbn [Re.exec].
  destruct (Re.boundary prev s); [|discriminate].
  intros H. apply plus_inv in H. destruct H as (m & Hm & H).
  destruct (span_letters ascii_letter s m ltac:(lia)) as [Hl Hlen].
  assert (Hne : firstn m s <> []).
  { intros E. rewrite E in Hlen. cbn in Hlen. lia. }
  split; [|lia].
  cbn [Nat.add] in H.
  match type of H with
  | match ?opt with _ => _ end = _ => destruct opt as [e'|] eqn:Hopt
  end.
  - injection H as ->. rewrite lit_startswith in Hopt.
    destruct (skipn m s) as [|c t] eqn:Hsk; [discriminate|].
    cbn [startswith] in Hopt. rewrite andb_true_r in Hopt.
    destruct (Ascii.eqb_spec apostrophe c) as [<-|]; [|discriminate].
    cbn [length skipn] in Hopt.
    apply plus_inv in Hopt. destruct Hopt as (m2 & Hm2 & Hk).
    destruct (Re.boundary (prev_at (last_char (prev_at prev s m) [apostrophe]) t m2)
                (skipn m2 t)); [|discriminate].
    injection Hk as <-.
    destruct (span_letters ascii_letter t m2 ltac:(lia)) as [Hl2 Hlen2].
    replace (m + 1 + m2)%nat with (m + S m2)%nat by lia.
    rewrite firstn_plus, Hsk. cbn [firstn].
    apply token_contracted; try assumption.
    intros E. rewrite E in Hlen2. cbn in Hlen2. lia.
  - destruct (Re.boundary (prev_at prev s m) (skipn m s)); [|discriminate].
    injection H as <-. now apply token_plain.
Qed.

Lemma findall_Forall (r : Re.regex) (P : str -> Prop) :
  (forall prev s e, Re.match_at r prev s = Some e -> P (firstn e s)) ->
  forall s k prev, Forall P (Re.findall_from r k prev s).
Proof.
  intros HP. induction s as [|c s IH]; intros k prev.
  - destruct k; cbn [Re.findall_from]; [|constructor].
    destruct (Re.match_at r prev []) eqn:Hm; constructor; [|constructor].
    now apply (HP prev).
  - destruct k as [|k]; cbn [Re.findall_from]; [|apply IH].
    destruct (Re.match_at r prev (c :: s)) eqn:Hm; [|apply IH].
    constructor; [now apply (HP prev)|apply IH].
Qed.

Lemma tokens_are_word_tokens (text : str) :
  Forall word_token (_tokenize_words text).
Proof.
  apply findall_Forall. intros prev s e H.
  apply (word_pattern_match prev s e H).
Qed.

Lemma word_token_nonempty (w : str) : word_token w -> (1 <= length w)%nat.
Proof.
  intros [u Hu _|u v Hu _ _ _].
  - destruct u; [congruence|cbn; lia].
  - destruct u; [congruence|cbn; lia].
Qed.

(** The matches of [re.findall] are disjoint pieces of the text. *)
Lemma findall_total_length (r : Re.regex) (s : str) :
  forall k prev,
    (total_length (Re.findall_from r k prev s) <= length s - k)%nat.
Proof.
  induction s as [|c s IH]; intros k prev.
  - destruct k; cbn [Re.findall_from]; [|cbn; lia].
    destruct (Re.match_at r prev []); cbn; [rewrite firstn_nil; cbn|]; lia.
  - destruct k as [|k]; cbn [Re.findall_from].
    + destruct (Re.match_at r prev (c :: s)) as [n|].
      * cbn [total_length fold_right]. fold (total_length (Re.findall_from r (pred n) (Some c) s)).
        specialize (IH (pred n) (Some c)).
        pose proof (firstn_le_length n (c :: s)) as Hf1.
        pose proof (length_firstn n (c :: s)) as Hf2.
        cbn [length] in *. lia.
      * specialize (IH 0%nat (Some c)). cbn [length]. lia.
    + specialize (IH k (Some c)). cbn [length]. lia.
Qed.

Lemma total_length_ge (l : list str) :
  Forall (fun w => (1 <= length w)%nat) l -> (length l <= total_length l)%nat.
Proof.
  induction 1 as [|w l Hw _ IH]; cbn [total_length fold_right length]; [lia|].
  fold (total_length l). lia.
Qed.

(** X1. Every token of [_tokenize_words] is a run of ASCII letters, or two
    such runs joined by one apostrophe: a token is never empty, holds no
    digit, and neither starts nor ends with an apostrophe.  The tokens are
    disjoint pieces of the text, so their lengths add up to at most the
    length of the text. *)
Theorem tokens_shape (text : str) :
  Forall word_token (_tokenize_words text)
  /\ (total_length (_tokenize_words text) <= length text)%nat.
Proof.
  split; [apply tokens_are_word_tokens|].
  unfold _tokenize_words, Re.findall.
  pose proof (findall_total_length word_pattern text 0 None). lia.
Qed.

Lemma no_letter_no_match (prev : option ascii) (s : str) :
  forallb (fun c => negb (ascii_letter c)) s = true ->
  Re.match_at word_pattern prev s = None.
Proof.
  intros H. destruct (Re.match_at word_pattern prev s) as [e|] eqn:Hm;
    [|reflexivity].
  apply word_pattern_match in Hm. destruct Hm as [_ Hspan].
  destruct s as [|c s]; cbn [span] in Hspan; [lia|].
  cbn [forallb] in H. apply andb_true_iff in H. destruct H as [H _].
  destruct (ascii_letter c); [discriminate H|lia].
Qed.

Lemma no_letter_no_tokens (text : str) :
  forallb (fun c => negb (ascii_letter c)) text = true ->
  _tokenize_words text = [].
Proof.
  unfold _tokenize_words, Re.findall. generalize (@None ascii).
  induction text as [|c s IH]; intros prev H.
  - cbn [Re.findall_from]. now rewrite no_letter_no_match.
  - cbn [Re.findall_from]. rewrite no_letter_no_match by exact H.
    apply IH. cbn [forallb] in H. apply andb_true_iff in H. apply H.
Qed.

(** X2. A text without an ASCII letter, digits, punctuation, white space
    or accented letters only, has no token: [extract] returns
    [word_count = 0] for it, with every ratio and density field at 0
    whatever punctuation the text holds. *)
Theorem extract_without_letters (self : LinguisticExtractor) (text : str) :
  forallb (fun c => negb (ascii_letter c)) text = true ->
  _tokenize_words text = []
  /\ exists f, extract self text = Ok f
               /\ word_count f = 0%Z /\ ratio_fields_zero f.
Proof.
  intros H. pose proof (no_letter_no_tokens text H) as Hw.
  split; [exact Hw|].
  destruct (whitespace_only text) eqn:Hws.
  - exists LinguisticFeatures_default.
    split; [apply extract_whitespace, Hws|].
    split; [reflexivity|apply default_ratios_zero].
  - exists (counts_only text).
    split; [apply extract_no_words; assumption|].
    split; [reflexivity|apply counts_only_ratios_zero].
Qed.

(** The text [!!! 42 ???]: marks and digits, no letter. *)
Lemma extract_without_letters_witness :
  exists f, extract LinguisticExtractor_default (lit "!!! 42 ???") = Ok f
            /\ word_count f = 0%Z /\ exclamation_ratio f == 0.
Proof.
  destruct (extract_without_letters LinguisticExtractor_default
              (lit "!!! 42 ???") eq_refl) as (_ & f & Hf & Hwc & Hz).
  exists f. split; [exact Hf|]. split; [exact Hwc|]. apply Hz.
Defined.

(** ** Sentence counting *)

Lemma count_sentences_is_runs_aux (text : str) :
  (1 <= _count_sentences text)%Z
  /\ (_count_sentences text <= Z.max 1 (len text))%Z.
Proof.
  split; [apply count_sentences_pos|].
  rewrite count_sentences_runs. unfold len.
  assert (H : forall b s, (count_runs terminal b s <= length s)%nat).
  { intros b s. revert b.
    induction s as [|c s IH]; intros b; cbn [count_runs length]; [lia|].
    destruct (terminal c).
    - specialize (IH true). destruct b; lia.
    - specialize (IH false). lia. }
  specialize (H false text). lia.
Qed.

(** X3. [_count_sentences] is the number of maximal runs of the
    characters [.], [!] and [?] in the text, and 1 when there is none:
    consecutive terminators count once, and the result is never below 1
    nor above the larger of 1 and the length of the text. *)
Theorem count_sentences_is_runs (text : str) :
  _count_sentences text = Z.max 1 (Z.of_nat (count_runs terminal false text))
  /\ (1 <= _count_sentences text)%Z
  /\ (_count_sentences text <= Z.max 1 (len text))%Z.
Proof.
  split; [apply count_sentences_runs|].
  apply count_sentences_is_runs_aux.
Qed.

(** ** Invariants of the extracted record *)

Lemma ratio_times (a b : Z) :
  b <> 0%Z -> inject_Z a / inject_Z b * inject_Z b == inject_Z a.
Proof.
  intros Hb. rewrite Qmult_comm. apply Qmult_div_r.
  change 0 with (inject_Z 0). rewrite inject_Z_injective. exact Hb.
Qed.

Lemma sum_len_total (l : list str) :
  sum (map len l) = Z.of_nat (total_length l).
Proof.
  unfold sum. induction l as [|w l IH]; cbn [map fold_right total_length]; [reflexivity|].
  fold (total_length l). rewrite IH. unfold len. lia.
Qed.

Lemma not_whitespace_nonempty (text : str) :
  whitespace_only text = false -> (1 <= len text)%Z.
Proof.
  destruct text; [discriminate|]. intros _. unfold len. cbn [length]. lia.
Qed.

(** X4. Sizes of an extracted record are consistent with the text: for
    every text, [word_count] and [sentence_count] are at most
    [char_count], [caps_word_count] is at most [word_count], and when
    there is a word, [avg_word_length] is at least 1 and the letters of
    all words together, [avg_word_length * word_count], are at most
    [char_count]. *)
Theorem extract_sizes (self : LinguisticExtractor) (text : str) :
  exists f, extract self text = Ok f
            /\ (0 <= word_count f <= char_count f)%Z
            /\ (sentence_count f <= char_count f)%Z
            /\ (0 <= caps_word_count f <= word_count f)%Z
            /\ ((0 < word_count f)%Z ->
                1 <= avg_word_length f
                /\ avg_word_length f * inject_Z (word_count f)
                   <= inject_Z (char_count f)).
Proof.
  destruct (whitespace_only text) eqn:Hws.
  { exists LinguisticFeatures_default.
    split; [apply extract_whitespace, Hws|]. cbn.
    repeat split; try lia; try discriminate. }
  pose proof (not_whitespace_nonempty text Hws) as Hlen.
  destruct (count_sentences_is_runs_aux text) as [Hs1 Hs2].
  destruct (tokens_nil_dec text) as [Hw|Hw].
  { exists (counts_only text).
    split; [apply extract_no_words; assumption|]. cbn.
    repeat split; try lia; try discriminate. }
  eexists. split; [apply (extract_words self text Hws Hw)|].
  cbn [word_count char_count sentence_count caps_word_count avg_word_length].
  pose proof (tokens_are_word_tokens text) as Htok.
  assert (Hne : Forall (fun w => (1 <= length w)%nat) (_tokenize_words text)).
  { eapply Forall_impl; [|exact Htok]. apply word_token_nonempty. }
  pose proof (total_length_ge _ Hne) as Hge.
  pose proof (findall_total_length word_pattern text 0 None) as Htot.
  fold (Re.findall word_pattern text) in Htot.
  fold (_tokenize_words text) in Htot.
  assert (Hpos : (0 < llen (_tokenize_words text))%Z).
  { pose proof (llen_nonneg (_tokenize_words text)).
    assert (llen (_tokenize_words text) <> 0%Z) by now rewrite llen_nil_iff.
    lia. }
  split; [unfold llen, len in *; lia|].
  split; [lia|].
  split; [split; [apply llen_nonneg|apply llen_filter_le]|].
  intros _.
  destruct (map len (_tokenize_words text)) eqn:Hl.
  { apply (f_equal (@length Z)) in Hl. rewrite length_map in Hl.
    unfold llen in Hpos. cbn in Hl. lia. }
  rewrite <- Hl. unfold np_mean. rewrite llen_map, sum_len_total.
  split.
  - apply ratio_ge_one; [exact Hpos|]. unfold llen. lia.
  - rewrite ratio_times by lia. rewrite <- Zle_Qle. unfold len. lia.
Qed.

(** The text [Hello there!]. *)
Lemma extract_sizes_witness :
  exists f, extract LinguisticExtractor_default (lit "Hello there!") = Ok f
            /\ 1 <= avg_word_length f.
Proof.
  destruct (extract_sizes LinguisticExtractor_default (lit "Hello there!"))
    as (f & Hf & _ & _ & _ & H).
  exists f. split; [exact Hf|].
  apply H. vm_compute in Hf. injection Hf as <-. reflexivity.
Defined.

(** ** Letter case *)

Lemma lower_word_char (d : ascii) : word_char (lower_char d) = word_char d.
Proof. by_character d. Qed.

Lemma lower_letter (d : ascii) : ascii_letter (lower_char d) = ascii_letter d.
Proof. by_character d. Qed.

Lemma lower_terminal (d : ascii) : terminal (lower_char d) = terminal d.
Proof. by_character d. Qed.

Lemma lower_apostrophe (d : ascii) :
  Ascii.eqb apostrophe (lower_char d) = Ascii.eqb apostrophe d.
Proof. by_character d. Qed.

Lemma lower_isspace (d : ascii) : isspace (lower_char d) = isspace d.
Proof. by_character d. Qed.

Lemma lower_char_idem (d : ascii) : lower_char (lower_char d) = lower_char d.
Proof. by_character d. Qed.

Lemma lower_not_upper (d : ascii) : is_upper_char (lower_char d) = false.
Proof. by_character d. Qed.

Lemma lower_exclamation (d : ascii) :
  Ascii.eqb "!" (lower_char d) = Ascii.eqb "!" d.
Proof. by_character d. Qed.

Lemma lower_question (d : ascii) :
  Ascii.eqb "?" (lower_char d) = Ascii.eqb "?" d.
Proof. by_character d. Qed.

Lemma lower_idem (s : str) : lower (lower s) = lower s.
Proof.
  unfold lower. rewrite map_map. apply map_ext. apply lower_char_idem.
Qed.

Section PatternsUnderMap.

Variable f : ascii -> ascii.
Hypothesis f_word : forall d, word_char (f d) = word_char d.

Lemma boundary_map (prev : option ascii) (s : str) :
  Re.boundary (option_map f prev) (map f s) = Re.boundary prev s.
Proof.
  unfold Re.boundary. f_equal.
  - destruct prev; cbn; [apply f_word|reflexivity].
  - destruct s; cbn; [reflexivity|apply f_word].
Qed.

Lemma lit_map (p : str) (k k' : Re.cont) :
  (forall c d, In c p -> Ascii.eqb c (f d) = Ascii.eqb c d) ->
  (forall q s n, k' (option_map f q) (map f s) n = k q s n) ->
  forall prev s n,
    Re.lit_k p k' (option_map f prev) (map f s) n = Re.lit_k p k prev s n.
Proof.
  intros Hp Hk. induction p as [|c p IH]; intros prev s n.
  - apply Hk.
  - destruct s as [|d s]; [reflexivity|].
    cbn [map Re.lit_k]. rewrite Hp by now left.
    destruct (Ascii.eqb c d); [|reflexivity].
    apply (IH (fun a b H => Hp a b (or_intror H)) (Some d)).
Qed.

Lemma plus_map (cls : ascii -> bool) (k k' : Re.cont) :
  (forall d, cls (f d) = cls d) ->
  (forall q s n, k' (option_map f q) (map f s) n = k q s n) ->
  forall s prev n,
    Re.plus_k cls k' (option_map f prev) (map f s) n = Re.plus_k cls k prev s n.
Proof.
  intros Hc Hk. induction s as [|d s IH]; intros prev n; [reflexivity|].
  cbn [map Re.plus_k]. rewrite Hc. destruct (cls d); [|reflexivity].
  rewrite (IH (Some d)). rewrite (Hk (Some d)). reflexivity.
Qed.

Lemma exec_map (r : Re.regex) :
  respects f r ->
  forall k k' : Re.cont,
    (forall q s n, k' (option_map f q) (map f s) n = k q s n) ->
    forall prev s n,
      Re.exec r k' (option_map f prev) (map f s) n = Re.exec r k prev s n.
Proof.
  induction r as [p|c|cls| |r1 IH1 r2 IH2|r1 IH1]; intros Hr k k' Hk prev s n;
    cbn [Re.exec respects] in *.
  - now apply lit_map.
  - apply lit_map; [|exact Hk]. intros a d [<-|[]]. apply Hr.
  - now apply plus_map.
  - rewrite boundary_map, Hk. reflexivity.
  - destruct Hr as [H1 H2]. apply (IH1 H1). intros q t m. now apply (IH2 H2).
  - rewrite (IH1 Hr k k' Hk), Hk. reflexivity.
Qed.

Lemma match_at_map (r : Re.regex) (prev : option ascii) (s : str) :
  respects f r ->
  Re.match_at r (option_map f prev) (map f s) = Re.match_at r prev s.
Proof.
  intros Hr. unfold Re.match_at. now apply exec_map.
Qed.

Lemma findall_map (r : Re.regex) :
  respects f r ->
  forall s k prev,
    Re.findall_from r k (option_map f prev) (map f s)
    = map (map f) (Re.findall_from r k prev s).
Proof.
  intros Hr. induction s as [|c s IH]; intros k prev.
  - destruct k; cbn [map Re.findall_from]; [|reflexivity].
    change (@nil ascii) with (map f []) at 1. rewrite match_at_map by exact Hr.
    destruct (Re.match_at r prev []); [|reflexivity].
    cbn [map]. now rewrite !firstn_nil.
  - destruct k as [|k]; cbn [map Re.findall_from].
    + change (f c :: map f s) with (map f (c :: s)).
      rewrite match_at_map by exact Hr.
      destruct (Re.match_at r prev (c :: s)) as [n|].
      * rewrite firstn_map. cbn [map]. f_equal. apply (IH _ (Some c)).
      * apply (IH _ (Some c)).
    + apply (IH _ (Some c)).
Qed.

Lemma split_map (r : Re.regex) :
  respects f r ->
  forall s k prev cur,
    Re.split_from r k (option_map f prev) (map f cur) (map f s)
    = map (map f) (Re.split_from r k prev cur s).
Proof.
  intros Hr. induction s as [|c s IH]; intros k prev cur.
  - destruct k; cbn [map Re.split_from].
    + change (@nil ascii) with (map f []) at 1. rewrite match_at_map by exact Hr.
      destruct (Re.match_at r prev []) as [[|n]|]; cbn [map]; now rewrite map_rev.
    + now rewrite map_rev.
  - destruct k as [|k]; cbn [map Re.split_from].
    + change (f c :: map f s) with (map f (c :: s)) at 1.
      rewrite match_at_map by exact Hr.
      destruct (Re.match_at r prev (c :: s)) as [[|n]|]; cbn [map].
      * apply (IH _ (Some c) (c :: cur)).
      * rewrite map_rev. f_equal. apply (IH _ (Some c) []).
      * apply (IH _ (Some c) (c :: cur)).
    + apply (IH _ (Some c)).
Qed.

End PatternsUnderMap.

Lemma word_pattern_respects_lower : respects lower_char word_pattern.
Proof.
  cbn. repeat split; first [apply lower_letter|apply lower_apostrophe].
Qed.

Lemma tokenize_lower (text : str) :
  _tokenize_words (lower text) = map lower (_tokenize_words text).
Proof.
  apply (findall_map lower_char lower_word_char word_pattern
           word_pattern_respects_lower text 0 None).
Qed.

Lemma count_sentences_lower (text : str) :
  _count_sentences (lower text) = _count_sentences text.
Proof.
  unfold _count_sentences, Re.findall, lower. cbv zeta.
  pose proof (findall_map lower_char lower_word_char terminal_pattern
                lower_terminal text 0 None) as H.
  cbn [option_map] in H. rewrite H.
  now rewrite llen_map.
Qed.

Lemma whitespace_lower (text : str) :
  whitespace_only (lower text) = whitespace_only text.
Proof.
  unfold whitespace_only, lower.
  induction text as [|c s IH]; cbn [map forallb]; [reflexivity|].
  now rewrite lower_isspace, IH.
Qed.

Lemma lstrip_lower (s : str) : lstrip (lower s) = lower (lstrip s).
Proof.
  unfold lower. induction s as [|c s IH]; cbn [map lstrip]; [reflexivity|].
  rewrite lower_isspace. destruct (isspace c); [exact IH|reflexivity].
Qed.

Lemma strip_lower (s : str) : strip (lower s) = lower (strip s).
Proof.
  unfold strip, rstrip. rewrite lstrip_lower.
  unfold lower at 1. rewrite <- map_rev. fold (lower (rev (lstrip s))).
  rewrite lstrip_lower. unfold lower. now rewrite map_rev.
Qed.

Lemma count_imperatives_lower (text : str) :
  _count_imperatives (lower text) = _count_imperatives text.
Proof.
  unfold _count_imperatives, Re.split. cbv zeta.
  pose proof (split_map lower_char lower_word_char terminal_pattern
                lower_terminal text 0 None []) as H.
  cbn [option_map map] in H.
  change (lower text) with (map lower_char text). rewrite H.
  generalize (Re.split_from terminal_pattern 0 None [] text). intros l.
  generalize 0%Z.
  induction l as [|x l IH]; intros start; cbn [map fold_left]; [reflexivity|].
  fold (lower x). rewrite strip_lower, lower_idem. apply IH.
Qed.

Lemma count_char_lower (c : ascii) (text : str) :
  (forall d, Ascii.eqb c (lower_char d) = Ascii.eqb c d) ->
  Py.count (lower text) [c] = Py.count text [c].
Proof.
  intros Hc. unfold Py.count. rewrite !count_one_char. f_equal.
  unfold lower. induction text as [|d s IH]; cbn [map filter]; [reflexivity|].
  rewrite Hc. destruct (Ascii.eqb c d); cbn [length]; now rewrite IH.
Qed.

Lemma isupper_lower (w : str) : isupper (lower w) = false.
Proof.
  unfold isupper, lower.
  replace (existsb is_upper_char (map lower_char w)) with false; [reflexivity|].
  symmetry. induction w as [|c w IH]; cbn [map existsb]; [reflexivity|].
  now rewrite lower_not_upper, IH.
Qed.

Lemma reference_syllables_lower (w : str) :
  reference_syllables (lower w) = reference_syllables w.
Proof. unfold reference_syllables. now rewrite lower_idem. Qed.

Lemma len_lower (s : str) : len (lower s) = len s.
Proof. unfold len, lower. now rewrite length_map. Qed.

Lemma default_same_but_caps :
  same_but_caps LinguisticFeatures_default LinguisticFeatures_default.
Proof. repeat split. Qed.

(** X6. Extraction does not depend on letter case, apart from the caps
    features: for every text whose characters are code points below 256
    (ASCII and Latin-1, where [str.lower] maps character to character),
    [extract] on the lower-cased text returns the record it returns on the
    text itself in every field but [caps_word_count] and [caps_ratio],
    which are 0 for the lower-cased text.  In particular the tokens of the
    lower-cased text are the lower-cased tokens of the text. *)
Theorem extract_lower_case (self : LinguisticExtractor) (text : str) :
  _tokenize_words (lower text) = map lower (_tokenize_words text)
  /\ exists f g, extract self text = Ok f
                 /\ extract self (lower text) = Ok g
                 /\ same_but_caps f g.
Proof.
  split; [apply tokenize_lower|].
  destruct (whitespace_only text) eqn:Hws.
  { exists LinguisticFeatures_default, LinguisticFeatures_default.
    split; [apply extract_whitespace, Hws|].
    split; [apply extract_whitespace; now rewrite whitespace_lower|].
    apply default_same_but_caps. }
  assert (Hws' : whitespace_only (lower text) = false)
    by now rewrite whitespace_lower.
  destruct (tokens_nil_dec text) as [Hw|Hw].
  { exists (counts_only text), (counts_only (lower text)).
    split; [apply extract_no_words; assumption|].
    split; [apply extract_no_words; [assumption|]; now rewrite tokenize_lower, Hw|].
    unfold same_but_caps, counts_only. cbn.
    rewrite len_lower, count_sentences_lower. repeat split. }
  assert (Hw' : _tokenize_words (lower text) <> []).
  { rewrite tokenize_lower. destruct (_tokenize_words text); [congruence|discriminate]. }
  do 2 eexists.
  split; [apply (extract_words self text Hws Hw)|].
  split; [apply (extract_words self (lower text) Hws' Hw')|].
  assert (Hlens : map len (map lower (_tokenize_words text))
                  = map len (_tokenize_words text)).
  { rewrite map_map. apply map_ext. apply len_lower. }
  assert (Hsyl : map reference_syllables (map lower (_tokenize_words text))
                 = map reference_syllables (_tokenize_words text)).
  { rewrite map_map. apply map_ext. apply reference_syllables_lower. }
  assert (Hll : map lower (map lower (_tokenize_words text))
                = map lower (_tokenize_words text)).
  { rewrite map_map. apply map_ext. apply lower_idem. }
  assert (Hcaps : filter
            (fun w => isupper w && (len w >=? min_caps_word_length self)%Z)
            (map lower (_tokenize_words text)) = []).
  { apply filter_none. intros x Hx. apply in_map_iff in Hx.
    destruct Hx as (w & <- & _). now rewrite isupper_lower. }
  unfold same_but_caps.
  cbn [char_count word_count sentence_count avg_word_length
       avg_sentence_length long_word_ratio reading_grade_level
       exclamation_ratio question_ratio caps_word_count caps_ratio
       hedge_count hedge_density certainty_count contraction_ratio
       politeness_count first_person_ratio urgency_word_count
       imperative_count filler_ratio negative_emotion_count
       negative_emotion_density absolutist_count absolutist_density].
  rewrite !tokenize_lower, !lower_idem, !len_lower, !count_sentences_lower,
    !count_imperatives_lower, !Hlens, !Hsyl, !Hll, !Hcaps, !llen_map.
  change (lit "!") with ["!"%char]. change (lit "?") with ["?"%char].
  rewrite (count_char_lower "!" text lower_exclamation),
    (count_char_lower "?" text lower_question).
  split; [repeat split|]. split; [repeat split|].
  split; [reflexivity|apply ratio_zero].
Qed.

(** ** Composite scores *)

(** X7. On every text without a word, white space, digits or punctuation
    only, the scores of the extracted record are fixed:
    [uncertainty_score], [uncertainty_score_v2], [emotional_intensity]
    and [complexity_score] are 0 and [formality_score] is its base value
    1/2, even where the text holds exclamation or question marks. *)
Theorem scores_without_words (self : LinguisticExtractor) (text : str)
  (f : LinguisticFeatures) :
  extract self text = Ok f ->
  word_count f = 0%Z ->
  uncertainty_score f == 0 /\ uncertainty_score_v2 f == 0
  /\ emotional_intensity f == 0 /\ formality_score f == 1 # 2
  /\ complexity_score f == 0.
Proof.
  intros Hf Hwc.
  destruct (whitespace_only text) eqn:Hws.
  { rewrite (extract_whitespace self text Hws) in Hf. injection Hf as <-.
    repeat split. }
  rewrite (extract_word_count self text f Hf Hws) in Hwc.
  apply llen_nil_iff in Hwc.
  rewrite (extract_no_words self text Hws Hwc) in Hf. injection Hf as <-.
  repeat split.
Qed.

(** The text [?!?!]. *)
Lemma scores_without_words_witness :
  exists f, extract LinguisticExtractor_default (lit "?!?!") = Ok f
            /\ emotional_intensity f == 0 /\ formality_score f == 1 # 2.
Proof.
  destruct (extract_ok LinguisticExtractor_default (lit "?!?!")) as (f & Hf).
  assert (Hwc : word_count f = 0%Z).
  { vm_compute in Hf. injection Hf as <-. reflexivity. }
  destruct (scores_without_words LinguisticExtractor_default (lit "?!?!") f
              Hf Hwc) as (_ & _ & Hi & Hfo & _).
  exists f. split; [exact Hf|]. split; assumption.
Defined.

Lemma capped_monotone (x y k : Q) :
  x <= y -> 0 <= k -> Qmin (x * k) 1.0 <= Qmin (y * k) 1.0.
Proof.
  intros Hxy Hk. apply Q.min_le_compat_r. now apply Qmult_le_compat_r.
Qed.

(** X8. The scores respond in one direction to each field they read.
    [uncertainty_score], [uncertainty_score_v2], [emotional_intensity]
    and [complexity_score] do not decrease when the fields they read do
    not decrease; [formality_score] does not decrease when
    [reading_grade_level] does not decrease and [contraction_ratio] and
    [filler_ratio] do not increase.  This holds for any two records. *)
Theorem scores_monotone (f g : LinguisticFeatures) :
  (hedge_density f <= hedge_density g ->
   question_ratio f <= question_ratio g ->
   uncertainty_score f <= uncertainty_score g
   /\ (negative_emotion_density f <= negative_emotion_density g ->
       first_person_ratio f <= first_person_ratio g ->
       uncertainty_score_v2 f <= uncertainty_score_v2 g))
  /\ (exclamation_ratio f <= exclamation_ratio g ->
      caps_ratio f <= caps_ratio g ->
      emotional_intensity f <= emotional_intensity g)
  /\ (reading_grade_level f <= reading_grade_level g ->
      (avg_sentence_length f <= avg_sentence_length g ->
       long_word_ratio f <= long_word_ratio g ->
       complexity_score f <= complexity_score g)
      /\ (contraction_ratio g <= contraction_ratio f ->
          filler_ratio g <= filler_ratio f ->
          formality_score f <= formality_score g)).
Proof.
  assert (H2 : 0 <= 2.0) by discriminate.
  assert (H3 : 0 <= 3.0) by discriminate.
  assert (H5 : 0 <= 5.0) by discriminate.
  assert (H12 : 0 <= 1 # 12) by discriminate.
  assert (H25 : 0 <= 1 # 25) by discriminate.
  split; [|split].
  - intros Hh Hq.
    pose proof (capped_monotone _ _ 2.0 Hh H2).
    pose proof (capped_monotone _ _ 3.0 Hq H3).
    assert (Hu : uncertainty_score f <= uncertainty_score g).
    { unfold uncertainty_score. cbv zeta. lra. }
    split; [exact Hu|]. intros Hn Hp.
    pose proof (capped_monotone _ _ 2.0 Hn H2).
    pose proof (capped_monotone _ _ 2.0 Hp H2).
    unfold uncertainty_score_v2. cbv zeta. lra.
  - intros He Hc.
    pose proof (capped_monotone _ _ 5.0 He H5).
    pose proof (capped_monotone _ _ 3.0 Hc H3).
    unfold emotional_intensity. cbv zeta. lra.
  - intros Hg.
    pose proof (capped_monotone _ _ (1 # 12) Hg H12) as Hg'.
    split.
    + intros Hs Hl.
      pose proof (capped_monotone _ _ (1 # 25) Hs H25).
      unfold complexity_score. cbv zeta. rewrite !over_12, !over_25. lra.
    + intros Hc Hfi.
      unfold formality_score. cbv zeta. rewrite !over_12.
      apply Q.max_le_compat_l. apply Q.min_le_compat_l. lra.
Qed.

(** Two partial records, the second with more exclamation marks per
    sentence. *)
Lemma scores_monotone_witness :
  exists f g,
    exclamation_ratio f = 1 # 10 /\ exclamation_ratio g = 1 # 5
    /\ emotional_intensity f <= emotional_intensity g.
Proof.
  pose (f := {|
    char_count := 0; word_count := 0; sentence_count := 0;
    avg_word_length := 0; avg_sentence_length := 0; long_word_ratio := 0;
    reading_grade_level := 0; exclamation_ratio := 1 # 10; question_ratio := 0;
    caps_word_count := 0; caps_ratio := 0; hedge_count := 0;
    hedge_density := 0; certainty_count := 0; contraction_ratio := 0;
    politeness_count := 0; first_person_ratio := 0; urgency_word_count := 0;
    imperative_count := 0; filler_ratio := 0; negative_emotion_count := 0;
    negative_emotion_density := 0; absolutist_count := 0;
    absolutist_density := 0 |}).
  pose (g := {|
    char_count := 0; word_count := 0; sentence_count := 0;
    avg_word_length := 0; avg_sentence_length := 0; long_word_ratio := 0;
    reading_grade_level := 0; exclamation_ratio := 1 # 5; question_ratio := 0;
    caps_word_count := 0; caps_ratio := 0; hedge_count := 0;
    hedge_density := 0; certainty_count := 0; contraction_ratio := 0;
    politeness_count := 0; first_person_ratio := 0; urgency_word_count := 0;
    imperative_count := 0; filler_ratio := 0; negative_emotion_count := 0;
    negative_emotion_density := 0; absolutist_count := 0;
    absolutist_density := 0 |}).
  exists f, g. split; [reflexivity|]. split; [reflexivity|].
  destruct (scores_monotone f g) as (_ & H & _).
  apply H; discriminate.
Defined.





(** ** Imperatives *)

(** [re.split] on a [+] over a class yields one piece more than there
    are runs of the class. *)
Lemma split_plus_runs (cls : ascii -> bool) (s : str) :
  forall prev cur,
    length (Re.split_from (Re.Plus cls) 0 prev cur s)
    = S (count_runs cls false s)
    /\ length (Re.split_from (Re.Plus cls) (span cls s) prev cur s)
       = S (count_runs cls true s).
Proof.
  induction s as [|c s IH]; intros prev cur.
  - split; reflexivity.
  - assert (H0 : length (Re.split_from (Re.Plus cls) 0 prev cur (c :: s))
                 = S (count_runs cls false (c :: s))).
    { cbn [Re.split_from]. unfold Re.match_at. cbn [Re.exec].
      rewrite plus_span. cbn [span count_runs].
      destruct (cls c).
      - cbn [Nat.add length]. f_equal. apply IH.
      - apply IH. }
    split; [exact H0|].
    cbn [span count_runs] in *. destruct (cls c).
    + cbn [Re.split_from Nat.add]. apply IH.
    + exact H0.
Qed.

Lemma count_imperatives_le_pieces (text : str) :
  (_count_imperatives text
   <= Z.of_nat (length (Re.split terminal_pattern text)))%Z.
Proof.
  unfold _count_imperatives. cbv zeta.
  generalize (Re.split terminal_pattern text). intros l.
  assert (H : forall start,
             (fold_left
                (fun count sent =>
                   match Py.split (lower (strip sent)) with
                   | w0 :: _ =>
                       if str_in w0 imperative_starters
                       then (count + 1)%Z else count
                   | [] => count
                   end) l start <= start + Z.of_nat (length l))%Z).
  { induction l as [|x l IH]; intros start; cbn [fold_left length]; [lia|].
    etransitivity; [apply IH|].
    destruct (Py.split (lower (strip x))); [lia|].
    destruct (str_in s imperative_starters); lia. }
  specialize (H 0%Z). lia.
Qed.

(** X11. [_count_imperatives] looks at one first word per piece between
    runs of terminal punctuation, so it is at least 0 and at most the
    number of runs plus one; on every extracted record [imperative_count]
    is at most [sentence_count + 1].  The bound is reached: a text that
    does not end in a terminator, such as [go.go.go], has three
    imperatives in two counted sentences. *)
Theorem imperative_count_bound (self : LinguisticExtractor) (text : str) :
  (0 <= _count_imperatives text
   <= Z.of_nat (count_runs terminal false text) + 1)%Z
  /\ (exists f, extract self text = Ok f
                /\ (0 <= imperative_count f <= sentence_count f + 1)%Z)
  /\ (exists g, extract self (lit "go.go.go") = Ok g
                /\ imperative_count g = 3%Z /\ sentence_count g = 2%Z).
Proof.
  assert (Hb : (0 <= _count_imperatives text
                <= Z.of_nat (count_runs terminal false text) + 1)%Z).
  { split; [apply count_imperatives_nonneg|].
    etransitivity; [apply count_imperatives_le_pieces|].
    unfold Re.split, terminal_pattern.
    rewrite (proj1 (split_plus_runs terminal text None [])). lia. }
  split; [exact Hb|]. split.
  - destruct (whitespace_only text) eqn:Hws.
    { exists LinguisticFeatures_default.
      split; [apply extract_whitespace, Hws|]. cbn. lia. }
    pose proof (count_sentences_pos text) as Hsc.
    destruct (tokens_nil_dec text) as [Hw|Hw].
    { exists (counts_only text).
      split; [apply extract_no_words; assumption|]. cbn. lia. }
    eexists. split; [apply (extract_words self text Hws Hw)|].
    cbn [imperative_count sentence_count].
    rewrite count_sentences_runs. lia.
  - assert (Hws : whitespace_only (lit "go.go.go") = false) by reflexivity.
    assert (Hw : _tokenize_words (lit "go.go.go") <> [])
      by (vm_compute; discriminate).
    eexists. split; [apply (extract_words self _ Hws Hw)|].
    split; vm_compute; reflexivity.
Qed.

(** ** Syllables *)

Lemma with_previous_length (prev : option ascii) (w : str) :
  length (with_previous prev w) = length w.
Proof.
  unfold with_previous. rewrite length_combine. cbn [length].
  rewrite length_map. lia.
Qed.

Lemma vowel_runs_le (w : str) : (0 <= vowel_runs w <= len w)%Z.
Proof.
  unfold vowel_runs, llen, len.
  pose proof (filter_length_le starts_vowel_run (with_previous None w)) as H.
  rewrite with_previous_length in H. lia.
Qed.

(** X12. The syllable estimate of a word is at least 1 and at most the
    number of its characters (1 for the empty word): the corrections for a
    final e and a final consonant-le never push it beyond the length of
    the word.  It does not depend on letter case. *)
Theorem syllables_bounded (word : str) :
  exists n, _syllables_in_word word = Ok n
            /\ (1 <= n <= Z.max 1 (len word))%Z
            /\ _syllables_in_word (lower word) = Ok n.
Proof.
  exists (reference_syllables word).
  split; [apply syllables_in_word_ok|].
  split; [|rewrite syllables_in_word_ok; f_equal; apply reference_syllables_lower].
  unfold reference_syllables. cbv zeta.
  pose proof (vowel_runs_le (lower word)) as Hr. rewrite len_lower in Hr.
  assert (Hle : ends_in_consonant_le (lower word) = true ->
                ends_in_e (lower word) = true /\ (3 <= len word)%Z).
  { unfold ends_in_consonant_le, ends_in_e. rewrite <- len_lower. unfold len.
    rewrite <- (length_rev (lower word)).
    destruct (rev (lower word)) as [|c1 [|c2 [|c3 r]]]; try discriminate.
    intros H. apply andb_true_iff in H. destruct H as [H _].
    apply andb_true_iff in H. destruct H as [H _].
    split; [exact H|]. cbn [length]. lia. }
  destruct (ends_in_consonant_le (lower word)).
  - destruct (Hle eq_refl) as [He H3]. rewrite He. cbn [andb].
    destruct (Z.ltb_spec 1 (vowel_runs (lower word))); lia.
  - destruct (ends_in_e (lower word) && (1 <? vowel_runs (lower word))%Z); lia.
Qed.

(** ** Word lists *)

Lemma sum_app (l1 l2 : list Z) : sum (l1 ++ l2) = (sum l1 + sum l2)%Z.
Proof.
  unfold sum. induction l1 as [|x l1 IH]; cbn [app fold_right]; [lia|].
  rewrite IH. lia.
Qed.

Lemma sum_permutation (l1 l2 : list Z) : Permutation l1 l2 -> sum l1 = sum l2.
Proof.
  unfold sum. induction 1; cbn [fold_right]; lia.
Qed.

(** X13. The count of a word list is the sum of the counts of its parts
    and does not depend on the order of its phrases:
    [_count_matches] of two lists joined is the sum over the two, a
    permuted list gives the same count, and adding phrases to a list
    never lowers the count. *)
Theorem count_matches_additive (text : str) (l1 l2 : list str) :
  _count_matches text (l1 ++ l2)
  = (_count_matches text l1 + _count_matches text l2)%Z
  /\ (_count_matches text l1 <= _count_matches text (l1 ++ l2))%Z
  /\ (Permutation l1 l2 -> _count_matches text l1 = _count_matches text l2).
Proof.
  rewrite !count_matches_sum, map_app, sum_app.
  split; [reflexivity|]. split.
  - pose proof (count_matches_nonneg text l2) as H.
    rewrite count_matches_sum in H. lia.
  - intros Hp. apply sum_permutation. now apply Permutation_map.
Qed.

(** The absolutist list in two orders. *)
Lemma count_matches_additive_witness :
  _count_matches (lit "never, always") (rev ABSOLUTIST_WORDS)
  = _count_matches (lit "never, always") ABSOLUTIST_WORDS.
Proof.
  destruct (count_matches_additive (lit "never, always")
              (rev ABSOLUTIST_WORDS) ABSOLUTIST_WORDS) as (_ & _ & H).
  apply H. apply Permutation_sym, Permutation_rev.
Defined.

(** ** Configuration *)

Lemma filter_length_mono {A : Type} (p q : A -> bool) (l : list A) :
  (forall x, In x l -> p x = true -> q x = true) ->
  (llen (filter p l) <= llen (filter q l))%Z.
Proof.
  unfold llen. induction l as [|a l IH]; intros H; cbn [filter]; [lia|].
  assert (IH' : (Z.of_nat (length (filter p l))
                 <= Z.of_nat (length (filter q l)))%Z).
  { apply IH. intros x Hx. apply H. now right. }
  destruct (p a) eqn:Hp.
  - rewrite (H a (or_introl eq_refl) Hp). cbn [length]. lia.
  - destruct (q a); cbn [length]; lia.
Qed.

Lemma filter_all {A : Type} (p : A -> bool) (l : list A) :
  (forall x, In x l -> p x = true) -> filter p l = l.
Proof.
  induction l as [|a l IH]; intros H; cbn [filter]; [reflexivity|].
  rewrite (H a) by now left. f_equal. apply IH. intros x Hx. apply H. now right.
Qed.

(** X14. The two options of the extractor act in one direction.  Raising
    [long_word_threshold] never raises [long_word_ratio], and raising
    [min_caps_word_length] never raises [caps_word_count] or [caps_ratio],
    while [word_count] and [sentence_count] stay as they are; with a
    threshold of 0 or less every word is long, so [long_word_ratio] is 1
    on any text with a word. *)
Theorem options_monotone (self self' : LinguisticExtractor) (text : str) :
  (long_word_threshold self <= long_word_threshold self')%Z ->
  (min_caps_word_length self <= min_caps_word_length self')%Z ->
  exists f f',
    extract self text = Ok f /\ extract self' text = Ok f'
    /\ word_count f' = word_count f /\ sentence_count f' = sentence_count f
    /\ long_word_ratio f' <= long_word_ratio f
    /\ (caps_word_count f' <= caps_word_count f)%Z
    /\ caps_ratio f' <= caps_ratio f
    /\ ((long_word_threshold self <= 0)%Z -> (0 < word_count f)%Z ->
        long_word_ratio f == 1).
Proof.
  intros Hl Hc.
  destruct (whitespace_only text) eqn:Hws.
  { exists LinguisticFeatures_default, LinguisticFeatures_default.
    split; [apply extract_whitespace, Hws|].
    split; [apply extract_whitespace, Hws|]. cbn.
    repeat split; try lia; try discriminate. }
  destruct (tokens_nil_dec text) as [Hw|Hw].
  { exists (counts_only text), (counts_only text).
    split; [apply extract_no_words; assumption|].
    split; [apply extract_no_words; assumption|]. cbn.
    repeat split; try lia; try discriminate. }
  do 2 eexists.
  split; [apply (extract_words self text Hws Hw)|].
  split; [apply (extract_words self' text Hws Hw)|].
  cbn [word_count sentence_count long_word_ratio caps_word_count caps_ratio].
  assert (Hpos : (0 < llen (_tokenize_words text))%Z).
  { pose proof (llen_nonneg (_tokenize_words text)).
    assert (llen (_tokenize_words text) <> 0%Z) by now rewrite llen_nil_iff.
    lia. }
  assert (Hlong : (llen (filter (fun l => (l >? long_word_threshold self')%Z)
                          (map len (_tokenize_words text)))
                   <= llen (filter (fun l => (l >? long_word_threshold self)%Z)
                              (map len (_tokenize_words text))))%Z).
  { apply filter_length_mono. intros x _ Hx.
    apply Z.gtb_lt in Hx. apply Z.gtb_lt. lia. }
  assert (Hcaps : (llen (filter
                     (fun w => isupper w
                               && (len w >=? min_caps_word_length self')%Z)
                     (_tokenize_words text))
                   <= llen (filter
                     (fun w => isupper w
                               && (len w >=? min_caps_word_length self)%Z)
                     (_tokenize_words text)))%Z).
  { apply filter_length_mono. intros x _ Hx.
    apply andb_true_iff in Hx. destruct Hx as [Hu Hx]. rewrite Hu. cbn [andb].
    rewrite Z.geb_leb in *. apply Z.leb_le in Hx. apply Z.leb_le. lia. }
  split; [reflexivity|]. split; [reflexivity|].
  split; [apply ratio_le_cross; try assumption; nia|].
  split; [exact Hcaps|].
  split; [apply ratio_le_cross; try assumption; nia|].
  intros Hzero _.
  rewrite filter_all.
  - rewrite llen_map. unfold Qdiv. apply Qmult_inv_r.
    change 0 with (inject_Z 0). rewrite inject_Z_injective. lia.
  - intros x Hx. apply in_map_iff in Hx. destruct Hx as (w & <- & Hin).
    pose proof (tokens_are_word_tokens text) as Htok.
    rewrite Forall_forall in Htok.
    pose proof (word_token_nonempty w (Htok w Hin)).
    apply Z.gtb_lt. unfold len. lia.
Qed.

(** The default options against a threshold of 8 and a minimum caps
    length of 3, on a text with a seven-letter word and a two-letter caps
    word. *)
Lemma options_monotone_witness :
  exists f f',
    extract LinguisticExtractor_default (lit "OK, nothing new") = Ok f
    /\ extract {| long_word_threshold := 8; min_caps_word_length := 3 |}
         (lit "OK, nothing new") = Ok f'
    /\ long_word_ratio f' <= long_word_ratio f
    /\ caps_ratio f' <= caps_ratio f.
Proof.
  destruct (options_monotone LinguisticExtractor_default
              {| long_word_threshold := 8; min_caps_word_length := 3 |}
              (lit "OK, nothing new"))
    as (f & f' & Hf & Hf' & _ & _ & Hl & _ & Hc & _);
    [cbn; lia|cbn; lia|].
  exists f, f'. repeat split; assumption.
Defined.

(** ** Contractions *)

Lemma findall_pieces (r : Re.regex) (s : str) :
  forall k prev w, In w (Re.findall_from r k prev s) ->
                   forall c, In c w -> In c s.
Proof.
  induction s as [|d s IH]; intros k prev w Hw c Hc.
  - destruct k; cbn [Re.findall_from] in Hw; [|contradiction].
    destruct (Re.match_at r prev []); [|contradiction].
    destruct Hw as [<-|[]]. rewrite firstn_nil in Hc. contradiction.
  - destruct k as [|k]; cbn [Re.findall_from] in Hw.
    + destruct (Re.match_at r prev (d :: s)) as [n|].
      * destruct Hw as [<-|Hw].
        -- rewrite <- (firstn_skipn n (d :: s)). apply in_or_app. now left.
        -- right. apply (IH _ _ _ Hw c Hc).
      * right. apply (IH _ _ _ Hw c Hc).
    + right. apply (IH _ _ _ Hw c Hc).
Qed.

Lemma tokens_shape_aux (text : str) :
  Forall word_token (_tokenize_words text)
  /\ forall w, In w (_tokenize_words text) -> forall c, In c w -> In c text.
Proof.
  split; [apply tokens_are_word_tokens|].
  intros w Hw. apply (findall_pieces word_pattern text 0 None w Hw).
Qed.

Lemma contraction_match_has_apostrophe (prev : option ascii) (s : str) (e : nat) :
  Re.match_at contraction_pattern prev s = Some e -> In apostrophe s.
Proof.
  unfold Re.match_at, contraction_pattern. cbn [Re.exec].
  destruct (Re.boundary prev s); [|discriminate].
  intros H. apply plus_inv in H. destruct H as (m & _ & H).
  rewrite lit_startswith in H.
  destruct (skipn m s) as [|c t] eqn:Hsk; [discriminate|].
  cbn [startswith] in H.
  destruct (Ascii.eqb_spec apostrophe c) as [<-|]; [|discriminate].
  rewrite <- (firstn_skipn m s), Hsk. apply in_or_app. right. now left.
Qed.

Lemma no_apostrophe_no_contraction (s : str) :
  ~ In apostrophe s ->
  forall k prev, Re.findall_from contraction_pattern k prev s = [].
Proof.
  induction s as [|c s IH]; intros Hno k prev.
  - destruct k; cbn [Re.findall_from]; [|reflexivity].
    destruct (Re.match_at contraction_pattern prev []) eqn:Hm; [|reflexivity].
    apply contraction_match_has_apostrophe in Hm. contradiction.
  - assert (Hs : ~ In apostrophe s) by (intros H; apply Hno; now right).
    destruct k as [|k]; cbn [Re.findall_from]; [|now apply IH].
    destruct (Re.match_at contraction_pattern prev (c :: s)) eqn:Hm;
      [|now apply IH].
    apply contraction_match_has_apostrophe in Hm. contradiction.
Qed.

Lemma lower_no_apostrophe (s : str) :
  ~ In apostrophe s -> ~ In apostrophe (lower s).
Proof.
  intros Hno Hin. apply Hno. unfold lower in Hin. apply in_map_iff in Hin.
  destruct Hin as (d & Hd & Hin).
  assert (E : Ascii.eqb apostrophe (lower_char d) = true)
    by (rewrite Hd; apply Ascii.eqb_refl).
  rewrite lower_apostrophe in E. apply Ascii.eqb_eq in E. now subst d.
Qed.

(** X15. A text without an apostrophe has no contraction: its
    [contraction_ratio] is 0, and every token of it is a plain run of
    letters. *)
Theorem no_apostrophe_no_contractions (self : LinguisticExtractor) (text : str) :
  ~ In apostrophe text ->
  exists f, extract self text = Ok f
            /\ contraction_ratio f == 0
            /\ Forall (fun w => forallb ascii_letter w = true)
                 (_tokenize_words text).
Proof.
  intros Hno.
  assert (Htok : Forall (fun w => forallb ascii_letter w = true)
                   (_tokenize_words text)).
  { pose proof (tokens_shape_aux text) as [Hshape Hin].
    apply Forall_forall. intros w Hw.
    rewrite Forall_forall in Hshape.
    destruct (Hshape w Hw) as [u _ Hu|u v _ _ _ _]; [exact Hu|].
    exfalso. apply Hno, (Hin _ Hw). apply in_or_app. right. now left. }
  destruct (whitespace_only text) eqn:Hws.
  { exists LinguisticFeatures_default.
    split; [apply extract_whitespace, Hws|]. split; [reflexivity|exact Htok]. }
  destruct (tokens_nil_dec text) as [Hw|Hw].
  { exists (counts_only text).
    split; [apply extract_no_words; assumption|].
    split; [reflexivity|exact Htok]. }
  eexists. split; [apply (extract_words self text Hws Hw)|].
  split; [|exact Htok]. cbn [contraction_ratio].
  unfold Re.findall.
  rewrite (no_apostrophe_no_contraction (lower text)
             (lower_no_apostrophe text Hno)).
  apply ratio_zero.
Qed.

(** The text [I am fine]. *)
Lemma no_apostrophe_no_contractions_witness :
  exists f, extract LinguisticExtractor_default (lit "I am fine") = Ok f
            /\ contraction_ratio f == 0.
Proof.
  assert (Hno : ~ In apostrophe (lit "I am fine")).
  { cbn. intros H. repeat (destruct H as [H|H]; [discriminate H|]). exact H. }
  destruct (no_apostrophe_no_contractions LinguisticExtractor_default
              (lit "I am fine") Hno) as (f & Hf & Hc & _).
  exists f. split; assumption.
Defined.

(** ** The majority baseline *)

(** X16. The majority baseline of [run_classification] is consistent:
    with majority class 1 and an accuracy in [0,1], its F1 is the F1 of
    its precision and recall, [2PR/(P+R)], and lies between the accuracy
    and 1; with any other majority class its precision, recall and F1 are
    0 whatever the accuracy. *)
Theorem majority_baseline_f1 (majority_class : Z) (majority_acc : Q) :
  0 <= majority_acc -> majority_acc <= 1 ->
  let b := majority_baseline majority_class majority_acc in
  (majority_class = 1%Z ->
   test_f1 b
   == 2 * test_precision b * test_recall b / (test_precision b + test_recall b)
   /\ test_accuracy b <= test_f1 b /\ test_f1 b <= 1)
  /\ (majority_class <> 1%Z ->
      test_precision b = 0 /\ test_recall b = 0 /\ test_f1 b = 0
      /\ test_accuracy b = majority_acc).
Proof.
  intros H0 H1 b. subst b. unfold majority_baseline.
  cbn [test_precision test_recall test_f1 test_accuracy].
  split.
  - intros ->. cbn [Z.eqb Pos.eqb].
    assert (Hpos : 0 < 1 + majority_acc) by lra.
    split; [|split].
    + setoid_replace (majority_acc + 1.0) with (1 + majority_acc) by ring.
      apply Qdiv_comp; [|reflexivity].
      setoid_replace 1.0 with 1 by reflexivity. ring.
    + apply Qle_shift_div_l; [exact Hpos|]. nra.
    + apply Qle_shift_div_r; [exact Hpos|]. lra.
  - intros Hne. destruct (Z.eqb_spec majority_class 1); [contradiction|].
    repeat split.
Qed.

(** Majority class 1 with three test labels out of four equal to it. *)
Lemma majority_baseline_f1_witness :
  test_f1 (majority_baseline 1 (3 # 4)) == 6 # 7
  /\ 3 # 4 <= test_f1 (majority_baseline 1 (3 # 4)).
Proof.
  assert (H0 : 0 <= 3 # 4) by discriminate.
  assert (H1 : 3 # 4 <= 1) by discriminate.
  destruct (majority_baseline_f1 1 (3 # 4) H0 H1) as [H _].
  destruct (H eq_refl) as (_ & Hacc & _).
  split; [reflexivity|exact Hacc].
Defined.

(** ** Where a token starts *)

Lemma span_le_length (cls : ascii -> bool) (s : str) :
  (span cls s <= length s)%nat.
Proof.
  induction s as [|c s IH]; cbn [span length]; [lia|].
  destruct (cls c); lia.
Qed.

Lemma span_inside (cls : ascii -> bool) (s : str) (m : nat) :
  (m < span cls s)%nat ->
  exists c, hd_error (skipn m s) = Some c /\ cls c = true.
Proof.
  revert m. induction s as [|c s IH]; intros m Hm; cbn [span] in Hm; [lia|].
  destruct (cls c) eqn:Hc; [|lia].
  destruct m as [|m]; [exists c; now split|].
  cbn [skipn]. apply IH. lia.
Qed.

Lemma span_end (cls : ascii -> bool) (s : str) :
  match hd_error (skipn (span cls s) s) with
  | Some c => cls c = false
  | None => True
  end.
Proof.
  induction s as [|c s IH]; cbn [span]; [exact I|].
  destruct (cls c) eqn:Hc; [exact IH|exact Hc].
Qed.

Lemma prev_in_run (cls : ascii -> bool) (s : str) :
  forall m prev,
    (1 <= m <= span cls s)%nat ->
    exists c, prev_at prev s m = Some c /\ cls c = true.
Proof.
  induction s as [|c s IH]; intros m prev Hm; cbn [span] in Hm; [lia|].
  destruct (cls c) eqn:Hc; [|lia].
  destruct m as [|m]; [lia|]. cbn [prev_at].
  destruct m as [|m].
  - exists c. split; [destruct s; reflexivity|exact Hc].
  - apply IH. lia.
Qed.

Lemma not_word_not_letter (c : option ascii) :
  Re.is_word c = false ->
  match c with Some d => ascii_letter d = false | None => True end.
Proof.
  destruct c as [d|]; [|trivial]. cbn. intros H.
  destruct (ascii_letter d) eqn:Hd; [|reflexivity].
  apply letter_is_word in Hd. congruence.
Qed.

(** The word pattern matches at a position exactly where a token can
    start. *)
Lemma word_match_starts (prev : option ascii) (s : str) (e : nat) :
  Re.match_at word_pattern prev s = Some e -> starts_token prev s = true.
Proof.
  unfold Re.match_at, word_pattern, starts_token. cbn [Re.exec].
  destruct (Re.boundary prev s) eqn:Hb; [|discriminate].
  intros H. apply plus_inv in H. destruct H as (m & Hm & H).
  assert (Hhead : Re.is_word (hd_error s) = true).
  { destruct (span_inside ascii_letter s 0 ltac:(lia)) as (c & Hc & Hl).
    cbn [skipn] in Hc. rewrite Hc. cbn. now apply letter_is_word. }
  unfold Re.boundary in Hb. rewrite Hhead in Hb.
  destruct (Re.is_word prev); [discriminate Hb|]. cbn [negb andb].
  replace (1 <=? span ascii_letter s)%nat with true
    by (symmetry; apply Nat.leb_le; lia).
  cbn [andb]. apply negb_true_iff.
  assert (Hstop : Re.is_word (hd_error (skipn m s)) = false ->
                  Re.is_word (hd_error (skipn (span ascii_letter s) s)) = false).
  { intros Hnw. destruct (Nat.eq_dec m (span ascii_letter s)) as [<-|Hne];
      [exact Hnw|].
    destruct (span_inside ascii_letter s m ltac:(lia)) as (c & Hc & Hl).
    rewrite Hc in Hnw. cbn in Hnw. apply letter_is_word in Hl. congruence. }
  apply Hstop. cbn [Nat.add] in H.
  match type of H with
  | match ?opt with _ => _ end = _ => destruct opt as [e'|] eqn:Hopt
  end.
  - rewrite lit_startswith in Hopt.
    destruct (skipn m s) as [|c t]; [discriminate|].
    cbn [startswith] in Hopt.
    destruct (Ascii.eqb_spec apostrophe c) as [<-|]; [reflexivity|discriminate].
  - destruct (Re.boundary (prev_at prev s m) (skipn m s)) eqn:Hb2; [|discriminate].
    destruct (prev_in_run ascii_letter s m prev Hm) as (c & Hc & Hl).
    unfold Re.boundary in Hb2. rewrite Hc in Hb2. cbn [Re.is_word] in Hb2.
    rewrite (letter_is_word c Hl) in Hb2.
    destruct (Re.is_word (hd_error (skipn m s))); [discriminate Hb2|reflexivity].
Qed.

Lemma run_word_match (prev : option ascii) (u rest : str) :
  u <> [] -> forallb ascii_letter u = true ->
  Re.is_word prev = false ->
  Re.is_word (hd_error rest) = false ->
  exists e, Re.match_at word_pattern prev (u ++ rest) = Some e.
Proof.
  intros Hne Hl Hprev Hafter.
  assert (Hhead : Re.is_word (hd_error (u ++ rest)) = true).
  { destruct u as [|c u]; [congruence|]. cbn.
    cbn [forallb] in Hl. apply andb_true_iff in Hl. apply letter_is_word, Hl. }
  unfold Re.match_at, word_pattern. cbn [Re.exec].
  unfold Re.boundary at 1. rewrite Hprev, Hhead. cbn [xorb].
  assert (Hrest : match rest with
                  | [] => True
                  | c :: _ => ascii_letter c = false
                  end).
  { destruct rest as [|c rest]; [exact I|].
    apply (not_word_not_letter (Some c) Hafter). }
  assert (Hb : Re.boundary (last_char prev u) rest = true).
  { unfold Re.boundary. rewrite last_letter_is_word by assumption.
    now rewrite Hafter. }
  match goal with
  | |- exists e, Re.plus_k _ ?k _ _ _ = Some e =>
      destruct (k (last_char prev u) rest (0 + length u)%nat) as [e|] eqn:Hk
  end.
  - exists e. apply plus_whole_run; assumption.
  - exfalso. cbn [Re.exec] in Hk. rewrite Hb in Hk.
    match type of Hk with
    | match ?opt with _ => _ end = _ => destruct opt; discriminate Hk
    end.
Qed.

Lemma starts_word_match (prev : option ascii) (s : str) :
  starts_token prev s = true ->
  exists e, Re.match_at word_pattern prev s = Some e.
Proof.
  unfold starts_token. intros H.
  apply andb_true_iff in H. destruct H as [H Hafter].
  apply andb_true_iff in H. destruct H as [Hprev Hspan].
  apply negb_true_iff in Hprev, Hafter. apply Nat.leb_le in Hspan.
  destruct (span_letters ascii_letter s (span ascii_letter s) (Nat.le_refl _))
    as [Hl Hlen].
  assert (Hne : firstn (span ascii_letter s) s <> []).
  { intros E. rewrite E in Hlen. cbn in Hlen. lia. }
  pose proof (run_word_match prev (firstn (span ascii_letter s) s)
                (skipn (span ascii_letter s) s) Hne Hl Hprev Hafter) as H.
  rewrite firstn_skipn in H. exact H.
Qed.

Lemma tokens_has_token (s : str) :
  forall k prev,
    Re.findall_from word_pattern k prev s <> [] -> has_token prev s = true.
Proof.
  induction s as [|c s IH]; intros k prev H.
  - destruct k; cbn [Re.findall_from] in H; [|congruence].
    cbn [has_token]. destruct (Re.match_at word_pattern prev []) eqn:Hm;
      [|congruence].
    now rewrite (word_match_starts prev [] n Hm).
  - cbn [has_token]. apply orb_true_iff.
    destruct k as [|k]; cbn [Re.findall_from] in H.
    + destruct (Re.match_at word_pattern prev (c :: s)) eqn:Hm.
      * left. apply (word_match_starts prev (c :: s) n Hm).
      * right. apply (IH _ _ H).
    + right. apply (IH _ _ H).
Qed.

Lemma has_token_tokens (s : str) :
  forall prev,
    has_token prev s = true -> Re.findall_from word_pattern 0 prev s <> [].
Proof.
  induction s as [|c s IH]; intros prev H; cbn [has_token] in H.
  - rewrite orb_false_r in H. apply starts_word_match in H.
    destruct H as (e & He). cbn [Re.findall_from]. rewrite He. discriminate.
  - cbn [Re.findall_from].
    destruct (Re.match_at word_pattern prev (c :: s)) eqn:Hm; [discriminate|].
    apply orb_true_iff in H. destruct H as [H|H].
    + apply starts_word_match in H. destruct H as (e & He). congruence.
    + apply (IH _ H).
Qed.

Lemma adds_run_end (a b : str) :
  adds_exclamations a b ->
  Re.is_word (hd_error (skipn (span ascii_letter a) a)) = false ->
  Re.is_word (hd_error (skipn (span ascii_letter b) b)) = false.
Proof.
  induction 1 as [|c a b _ IH|a b _ IH]; intros H.
  - reflexivity.
  - cbn [span] in *. destruct (ascii_letter c); [apply IH, H|exact H].
  - reflexivity.
Qed.

(** Adding exclamation marks never removes the last token of a text. *)
Lemma adds_has_token (t t' : str) :
  adds_exclamations t t' ->
  forall prev prev',
    (Re.is_word prev' = true -> Re.is_word prev = true) ->
    has_token prev t = true -> has_token prev' t' = true.
Proof.
  induction 1 as [|c t t' Hadd IH|t t' Hadd IH]; intros prev prev' Hp H.
  - cbn [has_token] in H. unfold starts_token in H.
    destruct (Re.is_word prev); cbn in H; discriminate H.
  - cbn [has_token] in *. apply orb_true_iff in H. apply orb_true_iff.
    destruct H as [H|H]; [left|right; apply (IH (Some c) (Some c)); tauto].
    unfold starts_token in *.
    apply andb_true_iff in H. destruct H as [H Hafter].
    apply andb_true_iff in H. destruct H as [Hprev Hspan].
    apply negb_true_iff in Hprev, Hafter. apply Nat.leb_le in Hspan.
    assert (Hc : ascii_letter c = true).
    { cbn [span] in Hspan. destruct (ascii_letter c); [reflexivity|lia]. }
    assert (Hprev' : Re.is_word prev' = false).
    { destruct (Re.is_word prev'); [|reflexivity].
      rewrite (Hp eq_refl) in Hprev. discriminate Hprev. }
    rewrite Hprev'. cbn [negb andb].
    rewrite (adds_run_end (c :: t) (c :: t') (adds_same c t t' Hadd) Hafter).
    cbn [span]. rewrite Hc. reflexivity.
  - cbn [has_token]. apply orb_true_iff. right.
    apply (IH prev (Some "!"%char)); [|exact H]. cbn. discriminate.
Qed.

Lemma adds_keeps_tokens (t t' : str) :
  adds_exclamations t t' ->
  _tokenize_words t <> [] -> _tokenize_words t' <> [].
Proof.
  intros Hadd H. unfold _tokenize_words, Re.findall in *.
  apply has_token_tokens.
  apply (adds_has_token t t' Hadd None None); [tauto|].
  apply (tokens_has_token t 0 None H).
Qed.

(** ** Exclamation marks added to a text *)

Lemma ratio_at_most_one (a b : Z) :
  (0 < b)%Z -> inject_Z a / inject_Z b <= 1 -> (a <= b)%Z.
Proof.
  intros Hb H.
  assert (Hq : 0 <= inject_Z b).
  { change 0 with (inject_Z 0). rewrite <- Zle_Qle. lia. }
  pose proof (Qmult_le_compat_r _ _ (inject_Z b) H Hq) as Hm.
  rewrite ratio_times, Qmult_1_l in Hm by lia.
  now rewrite <- Zle_Qle in Hm.
Qed.

Lemma zero_term_le (x : Q) : 0 <= x -> Qmin (0 * 5.0) 1.0 <= Qmin (x * 5.0) 1.0.
Proof.
  intros Hx. apply capped_monotone; [exact Hx|discriminate].
Qed.

(** C5 (amended).  Let [t'] be [t] with exclamation marks added and
    nothing else changed.  Then [exclamation_ratio] does not decrease if
    the added marks leave the sentence count as it was, or if [t] has at
    most one mark per sentence.  The exclamation term of
    [emotional_intensity] never decreases, so [emotional_intensity] does
    not decrease if [caps_ratio] does not, and in particular if the added
    marks leave the word tokens as they were. *)
Theorem added_exclamations_monotone (self : LinguisticExtractor) (t t' : str)
  (f f' : LinguisticFeatures) :
  adds_exclamations t t' ->
  extract self t = Ok f ->
  extract self t' = Ok f' ->
  (_count_sentences t' = _count_sentences t ->
   exclamation_ratio f <= exclamation_ratio f')
  /\ (exclamation_ratio f <= 1 -> exclamation_ratio f <= exclamation_ratio f')
  /\ Qmin (exclamation_ratio f * 5.0) 1.0
     <= Qmin (exclamation_ratio f' * 5.0) 1.0
  /\ (caps_ratio f <= caps_ratio f' ->
      emotional_intensity f <= emotional_intensity f')
  /\ (_tokenize_words t' = _tokenize_words t ->
      emotional_intensity f <= emotional_intensity f').
Proof.
  intros Hadd Hf Hf'.
  destruct (emphasis_nonneg self t' f' Hf') as [Hex' Hcaps'].
  assert (Hint : Qmin (exclamation_ratio f * 5.0) 1.0
                 <= Qmin (exclamation_ratio f' * 5.0) 1.0 ->
                 caps_ratio f <= caps_ratio f' ->
                 emotional_intensity f <= emotional_intensity f').
  { intros Hterm Hcaps.
    pose proof (capped_monotone _ _ 3.0 Hcaps ltac:(discriminate)).
    unfold emotional_intensity. cbv zeta. lra. }
  assert (Hzero : exclamation_ratio f = 0 -> caps_ratio f = 0 ->
    (_count_sentences t' = _count_sentences t ->
     exclamation_ratio f <= exclamation_ratio f')
    /\ (exclamation_ratio f <= 1 -> exclamation_ratio f <= exclamation_ratio f')
    /\ Qmin (exclamation_ratio f * 5.0) 1.0
       <= Qmin (exclamation_ratio f' * 5.0) 1.0
    /\ (caps_ratio f <= caps_ratio f' ->
        emotional_intensity f <= emotional_intensity f')
    /\ (_tokenize_words t' = _tokenize_words t ->
        emotional_intensity f <= emotional_intensity f')).
  { intros He Hc.
    assert (Hterm : Qmin (exclamation_ratio f * 5.0) 1.0
                    <= Qmin (exclamation_ratio f' * 5.0) 1.0)
      by (rewrite He; now apply zero_term_le).
    rewrite He.
    split; [intros _; exact Hex'|]. split; [intros _; exact Hex'|].
    split; [rewrite <- He; exact Hterm|].
    split; [now apply Hint|].
    intros _. apply Hint; [exact Hterm|now rewrite Hc]. }
  destruct (whitespace_only t) eqn:Hws.
  { rewrite (extract_whitespace self t Hws) in Hf. injection Hf as <-.
    now apply Hzero. }
  destruct (tokens_nil_dec t) as [Hw|Hw].
  { rewrite (extract_no_words self t Hws Hw) in Hf. injection Hf as <-.
    now apply Hzero. }
  clear Hzero.
  assert (Hws' : whitespace_only t' = false).
  { destruct (whitespace_only t') eqn:Hws'; [|reflexivity].
    rewrite (adds_exclamations_whitespace t t' Hadd Hws') in Hws. discriminate. }
  pose proof (adds_keeps_tokens t t' Hadd Hw) as Hw'.
  rewrite (extract_words self t Hws Hw) in Hf. injection Hf as <-.
  rewrite (extract_words self t' Hws' Hw') in Hf'. injection Hf' as <-.
  destruct (adds_exclamations_runs t t' Hadd) as [Hmarks Hruns].
  destruct (Hruns false) as [Hr1 Hr2].
  pose proof (count_sentences_runs t) as Hs.
  pose proof (count_sentences_runs t') as Hs'.
  pose proof (count_sentences_pos t) as Hp.
  pose proof (count_sentences_pos t') as Hp'.
  cbn [exclamation_ratio caps_ratio] in *.
  rewrite !count_exclamations in *.
  assert (Hterm : Qmin (inject_Z (Z.of_nat (exclamation_marks t))
                        / inject_Z (_count_sentences t) * 5.0) 1.0
                  <= Qmin (inject_Z (Z.of_nat (exclamation_marks t'))
                           / inject_Z (_count_sentences t') * 5.0) 1.0)
    by (apply exclaim_term_monotone; lia).
  split.
  { intros Hsame. rewrite Hsame. apply ratio_le_cross; try lia. nia. }
  split.
  { intros Hone. apply ratio_at_most_one in Hone; [|lia].
    apply ratio_le_cross; try lia. nia. }
  split; [exact Hterm|].
  split; [now apply Hint|].
  intros Htok. apply Hint; [exact Hterm|].
  rewrite Htok. apply Qle_refl.
Qed.

(** One mark added inside the word of [ab]: the sentence count stays 1,
    the tokens change, and [exclamation_ratio] rises from 0 to 1. *)
Lemma added_exclamations_monotone_witness :
  exists f f',
    extract LinguisticExtractor_default (lit "ab") = Ok f
    /\ extract LinguisticExtractor_default (lit "a!b") = Ok f'
    /\ _tokenize_words (lit "a!b") <> _tokenize_words (lit "ab")
    /\ exclamation_ratio f <= exclamation_ratio f'
    /\ emotional_intensity f <= emotional_intensity f'.
Proof.
  destruct (extract_ok LinguisticExtractor_default (lit "ab")) as (f & Hf).
  destruct (extract_ok LinguisticExtractor_default (lit "a!b")) as (f' & Hf').
  assert (Hadd : adds_exclamations (lit "ab") (lit "a!b")).
  { cbn. apply adds_same. apply adds_mark. apply adds_same. apply adds_done. }
  destruct (added_exclamations_monotone LinguisticExtractor_default
              (lit "ab") (lit "a!b") f f' Hadd Hf Hf')
    as (Hsame & _ & _ & Hcaps & _).
  exists f, f'. split; [exact Hf|]. split; [exact Hf'|].
  split; [vm_compute; discriminate|].
  split; [apply Hsame; vm_compute; reflexivity|].
  apply Hcaps.
  vm_compute in Hf. injection Hf as <-.
  vm_compute in Hf'. injection Hf' as <-. discriminate.
Defined.

(** ** Contractions and the first person *)








(** ** Totality and finiteness *)

Lemma occurrences_le (p s : str) : (occurrences p s <= S (length s))%nat.
Proof.
  induction s as [|c s IH]; cbn [occurrences length].
  - destruct (startswith p []); lia.
  - destruct (startswith p (c :: s)); lia.
Qed.

Lemma word_occurrences_le (p s : str) :
  forall prev, (word_occurrences p prev s <= S (length s))%nat.
Proof.
  induction s as [|c s IH]; intros prev; cbn [word_occurrences length].
  - destruct (whole_word_at p prev []); lia.
  - specialize (IH (Some c)). destruct (whole_word_at p prev (c :: s)); lia.
Qed.

Lemma phrase_matches_within (text p : str) :
  (phrase_matches text p <= len text + 1)%Z.
Proof.
  pose proof (phrase_matches_le text p) as H.
  unfold reference_term in H. unfold len.
  pose proof (occurrences_le p text).
  pose proof (word_occurrences_le p text None).
  destruct (char_in " " p); lia.
Qed.

(** A word list matches at most once per phrase and position. *)
Lemma count_matches_within (text : str) (word_list : list str) :
  (_count_matches text word_list <= llen word_list * (len text + 1))%Z.
Proof.
  rewrite count_matches_sum. unfold sum, llen.
  induction word_list as [|p l IH]; cbn [map fold_right length]; [lia|].
  pose proof (phrase_matches_within text p).
  rewrite Nat2Z.inj_succ, Z.mul_succ_l. lia.
Qed.

Lemma count_matches_bound (text : str) (word_list : list str) :
  (llen word_list <= 37)%Z ->
  (_count_matches (lower text) word_list <= field_bound text)%Z.
Proof.
  intros H. pose proof (count_matches_within (lower text) word_list) as Hc.
  rewrite len_lower in Hc. unfold field_bound.
  assert (0 <= len text)%Z by (unfold len; lia). nia.
Qed.

Lemma findall_length (r : Re.regex) (s : str) :
  forall k prev, (length (Re.findall_from r k prev s) <= S (length s))%nat.
Proof.
  induction s as [|c s IH]; intros k prev.
  - destruct k; cbn [Re.findall_from]; [|cbn [length]; lia].
    destruct (Re.match_at r prev []); cbn [length]; lia.
  - destruct k; cbn [Re.findall_from].
    + destruct (Re.match_at r prev (c :: s)) as [n|]; cbn [length].
      * specialize (IH (pred n) (Some c)). lia.
      * specialize (IH 0%nat (Some c)). lia.
    + cbn [length]. specialize (IH k (Some c)). lia.
Qed.

Lemma count_within (text p : str) : (0 <= Py.count text p <= len text + 1)%Z.
Proof.
  unfold Py.count, len.
  pose proof (count_from_le p text 0). pose proof (occurrences_le p text). lia.
Qed.

Lemma count_runs_le (cls : ascii -> bool) (s : str) :
  forall b, (count_runs cls b s <= length s)%nat.
Proof.
  induction s as [|c s IH]; intros b; cbn [count_runs length]; [lia|].
  destruct (cls c).
  - specialize (IH true). destruct b; lia.
  - specialize (IH false). lia.
Qed.

Lemma count_imperatives_within (text : str) :
  (_count_imperatives text <= len text + 1)%Z.
Proof.
  pose proof (count_imperatives_le_pieces text) as H.
  unfold Re.split in H.
  destruct (split_plus_runs terminal text None []) as [Hl _].
  unfold terminal_pattern in H. rewrite Hl in H.
  pose proof (count_runs_le terminal text false). unfold len. lia.
Qed.

Lemma reference_syllables_le (word : str) :
  (1 <= reference_syllables word <= Z.max 1 (len word))%Z.
Proof.
  unfold reference_syllables. cbv zeta.
  pose proof (vowel_runs_le (lower word)) as Hr. rewrite len_lower in Hr.
  assert (Hle : ends_in_consonant_le (lower word) = true ->
                ends_in_e (lower word) = true /\ (3 <= len word)%Z).
  { unfold ends_in_consonant_le, ends_in_e. rewrite <- len_lower. unfold len.
    rewrite <- (length_rev (lower word)).
    destruct (rev (lower word)) as [|c1 [|c2 [|c3 r]]]; try discriminate.
    intros H. apply andb_true_iff in H. destruct H as [H _].
    apply andb_true_iff in H. destruct H as [H _].
    split; [exact H|]. cbn [length]. lia. }
  destruct (ends_in_consonant_le (lower word)).
  - destruct (Hle eq_refl) as [He H3]. rewrite He. cbn [andb].
    destruct (Z.ltb_spec 1 (vowel_runs (lower word))); lia.
  - destruct (ends_in_e (lower word) && (1 <? vowel_runs (lower word))%Z); lia.
Qed.

(** The syllables of a list of non-empty words are at most their letters. *)
Lemma syllables_total (words : list str) :
  Forall (fun w => (1 <= length w)%nat) words ->
  (0 <= sum (map reference_syllables words) <= Z.of_nat (total_length words))%Z.
Proof.
  unfold sum, total_length.
  induction 1 as [|w l Hw _ IH]; cbn [map fold_right]; [lia|].
  pose proof (reference_syllables_le w). unfold len in *. lia.
Qed.

Lemma ratio_within (a b bound : Z) :
  (0 <= a <= bound)%Z -> (1 <= b)%Z ->
  inject_Z a / inject_Z b <= inject_Z bound.
Proof.
  intros Ha Hb. apply Qle_shift_div_r.
  - change 0 with (inject_Z 0). rewrite <- Zlt_Qlt. lia.
  - rewrite <- inject_Z_mult, <- Zle_Qle. nia.
Qed.

Lemma default_within (b : Z) :
  (0 <= b)%Z -> fields_within b LinguisticFeatures_default.
Proof.
  intros Hb.
  assert (Hq : 0 <= inject_Z b).
  { change 0 with (inject_Z 0). now rewrite <- Zle_Qle. }
  unfold fields_within, nonneg_fields. cbn.
  repeat split; first [exact Hb | exact Hq | discriminate].
Qed.

(** Every field of the record of a text lies between 0 and the bound of
    the text. *)
Lemma extract_within (self : LinguisticExtractor) (text : str)
  (f : LinguisticFeatures) :
  extract self text = Ok f -> fields_within (field_bound text) f.
Proof.
  intros Hf.
  destruct (extract_nonneg self text f Hf) as [Hnn Hlong].
  assert (Hlen : (0 <= len text)%Z) by (unfold len; lia).
  assert (Hb : (len text + 1 <= field_bound text)%Z) by (unfold field_bound; lia).
  destruct (whitespace_only text) eqn:Hws.
  { rewrite (extract_whitespace self text Hws) in Hf.
    injection Hf as <-. apply default_within. lia. }
  destruct (count_sentences_is_runs_aux text) as [Hs1 Hs2].
  assert (Hq : 0 <= inject_Z (field_bound text)).
  { change 0 with (inject_Z 0). rewrite <- Zle_Qle. lia. }
  destruct (tokens_nil_dec text) as [Hw|Hw].
  { rewrite (extract_no_words self text Hws Hw) in Hf.
    injection Hf as <-. split; [exact Hnn|].
    unfold counts_only.
    cbn [char_count word_count sentence_count avg_word_length
         avg_sentence_length long_word_ratio reading_grade_level
         exclamation_ratio question_ratio caps_word_count caps_ratio
         hedge_count hedge_density certainty_count contraction_ratio
         politeness_count first_person_ratio urgency_word_count
         imperative_count filler_ratio negative_emotion_count
         negative_emotion_density absolutist_count absolutist_density].
    repeat split; first [exact Hq | lia]. }
  split; [exact Hnn|]. clear Hnn.
  rewrite (extract_words self text Hws Hw) in Hf.
  injection Hf as <-.
  pose proof (tokens_are_word_tokens text) as Htok.
  assert (Hne : Forall (fun w => (1 <= length w)%nat) (_tokenize_words text)).
  { eapply Forall_impl; [|exact Htok]. apply word_token_nonempty. }
  pose proof (total_length_ge _ Hne) as Hge.
  pose proof (findall_total_length word_pattern text 0 None) as Htot.
  fold (Re.findall word_pattern text) in Htot.
  fold (_tokenize_words text) in Htot.
  pose proof (syllables_total _ Hne) as Hsyl.
  assert (Hwc : (1 <= llen (_tokenize_words text) <= len text)%Z).
  { pose proof (llen_nonneg (_tokenize_words text)).
    assert (llen (_tokenize_words text) <> 0%Z) by now rewrite llen_nil_iff.
    unfold llen, len in *. lia. }
  assert (Hlex : forall l, (llen l <= 37)%Z ->
                           (0 <= _count_matches (lower text) l
                            <= field_bound text)%Z).
  { intros l Hl. split; [apply count_matches_nonneg|].
    apply count_matches_bound, Hl. }
  assert (Hfil : forall (p : str -> bool),
             (0 <= llen (filter p (_tokenize_words text))
              <= field_bound text)%Z).
  { intros p. pose proof (llen_filter_le p (_tokenize_words text)).
    pose proof (llen_nonneg (filter p (_tokenize_words text))). lia. }
  pose proof (count_within text (lit "!")) as Hex.
  pose proof (count_within text (lit "?")) as Hqu.
  pose proof (count_imperatives_within text) as Himp.
  cbn [char_count word_count sentence_count avg_word_length
       avg_sentence_length long_word_ratio reading_grade_level
       exclamation_ratio question_ratio caps_word_count caps_ratio
       hedge_count hedge_density certainty_count contraction_ratio
       politeness_count first_person_ratio urgency_word_count
       imperative_count filler_ratio negative_emotion_count
       negative_emotion_density absolutist_count absolutist_density] in *.
  assert (Hone : 1 <= inject_Z (field_bound text)).
  { change 1 with (inject_Z 1). rewrite <- Zle_Qle. lia. }
  split.
  - repeat split;
      first [ apply Hfil
            | apply Hlex; vm_compute; discriminate
            | lia ].
  - split.
    { clear Hlong.
      destruct (map len (_tokenize_words text)) eqn:Hl;
        [apply Qle_trans with 0; [discriminate|exact Hq]|].
      rewrite <- Hl. unfold np_mean. rewrite llen_map, sum_len_total.
      apply ratio_within; unfold len in *; lia. }
    split; [apply ratio_within; lia|].
    split; [apply Qle_trans with 1; [exact Hlong|exact Hone]|].
    split.
    { apply Q.max_lub; [apply Qle_trans with 0; [discriminate|exact Hq]|].
      assert (Hx : inject_Z (llen (_tokenize_words text))
                   / inject_Z (_count_sentences text) <= inject_Z (len text)).
      { apply ratio_within; lia. }
      assert (Hy : inject_Z (sum (map reference_syllables (_tokenize_words text)))
                   / inject_Z (llen (_tokenize_words text))
                   <= inject_Z (len text)).
      { apply ratio_within; unfold len in *; lia. }
      assert (Hn : 0 <= inject_Z (len text)).
      { change 0 with (inject_Z 0). now rewrite <- Zle_Qle. }
      unfold field_bound. rewrite inject_Z_mult, inject_Z_plus.
      change (inject_Z 37) with 37. change (inject_Z 1) with 1.
      revert Hx Hy Hn.
      generalize (inject_Z (llen (_tokenize_words text))
                  / inject_Z (_count_sentences text)).
      generalize (inject_Z (sum (map reference_syllables (_tokenize_words text)))
                  / inject_Z (llen (_tokenize_words text))).
      generalize (inject_Z (len text)).
      intros n y x Hx Hy Hn. lra. }
    split; [apply ratio_within; [|lia]; split; [apply Hex|]; etransitivity;
            [apply Hex|exact Hb]|].
    split; [apply ratio_within; [|lia]; split; [apply Hqu|]; etransitivity;
            [apply Hqu|exact Hb]|].
    split; [apply ratio_within; [apply Hfil|lia]|].
    split; [apply ratio_within; [apply Hlex; vm_compute; discriminate|lia]|].
    split.
    { apply ratio_within; [|lia].
      pose proof (findall_length contraction_pattern (lower text) 0 None) as Hc.
      fold (Re.findall contraction_pattern (lower text)) in Hc.
      pose proof (len_lower text) as Hll. unfold llen, len in *. lia. }
    split.
    { apply ratio_within; [|lia].
      match goal with
      | |- (0 <= llen (filter ?p ?l) <= _)%Z =>
          pose proof (llen_filter_le p l) as Hfp;
          pose proof (llen_nonneg (filter p l))
      end.
      rewrite llen_map in Hfp. lia. }
    split; [apply ratio_within; [apply Hlex; vm_compute; discriminate|lia]|].
    split; [apply ratio_within; [apply Hlex; vm_compute; discriminate|lia]|].
    apply ratio_within; [apply Hlex; vm_compute; discriminate|lia].
Qed.

Lemma checked_scores_ok (g : LinguisticFeatures) :
  formality_score_checked g = Ok (formality_score g)
  /\ complexity_score_checked g = Ok (complexity_score g).
Proof. split; reflexivity. Qed.

(** C9. For every text, [extract] returns a record and raises nothing:
    no division meets a zero divisor and no index is out of range.  The
    divisions are guarded as the specification says: [sentence_count] is at
    least 1 on every text that reaches a division (any text that is not
    white space only), and with [word_count = 0] the five word-count
    ratios are left at 0.  The mean of the word lengths, which is not a
    number on an empty list, is taken of a non-empty list only.  Every
    field of the record is finite: it lies between 0 and 37 times the
    length of the text plus one.  On the record, each of the five composite
    scores lies between 0 and 1.  The two scores that divide,
    [formality_score] and [complexity_score], divide by the constants 12
    and 25: with the division as the operation that raises on a zero
    divisor, they return their value on every record; the other three
    scores only multiply, add and take minima. *)
Theorem extract_never_raises (self : LinguisticExtractor) (text : str) :
  (exists f, extract self text = Ok f
             /\ (whitespace_only text = false -> (1 <= sentence_count f)%Z)
             /\ (word_count f = 0%Z -> word_ratios_zero f)
             /\ (forall w, In w (_tokenize_words text) ->
                           exists n, _syllables_in_word w = Ok n)
             /\ (word_count f <> 0%Z ->
                 np_mean_or_nan (map len (_tokenize_words text))
                 = Some (avg_word_length f))
             /\ fields_within (field_bound text) f
             /\ unit_interval (uncertainty_score f)
             /\ unit_interval (uncertainty_score_v2 f)
             /\ unit_interval (emotional_intensity f)
             /\ unit_interval (formality_score f)
             /\ unit_interval (complexity_score f))
  /\ (forall g, formality_score_checked g = Ok (formality_score g)
                /\ complexity_score_checked g = Ok (complexity_score g)).
Proof.
  split; [|exact checked_scores_ok].
  assert (Hsyl : forall w, In w (_tokenize_words text) ->
                           exists n, _syllables_in_word w = Ok n).
  { intros w _. eexists. apply syllables_in_word_ok. }
  destruct (extract_ok self text) as [f Hf]. exists f.
  split; [exact Hf|].
  pose proof (extract_within self text f Hf) as Hin.
  destruct (extract_nonneg self text f Hf) as [Hnn Hlong].
  destruct (scores_bounded f Hnn) as (S1 & S2 & S3 & S4 & S5 & S6).
  assert (Hrest : (whitespace_only text = false -> (1 <= sentence_count f)%Z)
                  /\ (word_count f = 0%Z -> word_ratios_zero f)
                  /\ (word_count f <> 0%Z ->
                      np_mean_or_nan (map len (_tokenize_words text))
                      = Some (avg_word_length f))).
  { destruct (whitespace_only text) eqn:Hws.
    - rewrite (extract_whitespace self text Hws) in Hf. injection Hf as <-.
      split; [discriminate|].
      split; [intros _; apply default_ratios_zero|].
      intros H. exfalso. apply H. reflexivity.
    - destruct (tokens_nil_dec text) as [Hw|Hw].
      + rewrite (extract_no_words self text Hws Hw) in Hf. injection Hf as <-.
        split; [intros _; apply count_sentences_pos|].
        split; [intros _; apply counts_only_ratios_zero|].
        intros H. exfalso. apply H. reflexivity.
      + rewrite (extract_words self text Hws Hw) in Hf. injection Hf as <-.
        split; [intros _; apply count_sentences_pos|].
        cbn [word_count avg_word_length].
        split; [intros H; apply llen_nil_iff in H; contradiction|].
        intros _.
        destruct (map len (_tokenize_words text)) eqn:Hl; [|reflexivity].
        apply map_eq_nil in Hl. contradiction. }
  destruct Hrest as (R1 & R2 & R3).
  split; [exact R1|]. split; [exact R2|]. split; [exact Hsyl|].
  split; [exact R3|]. split; [exact Hin|].
  split; [exact S1|]. split; [exact S2|]. split; [exact S3|].
  split; [exact S4|]. split; [exact S5|apply S6, Hlong].
Qed.

(** The text [no. 7]. *)
Lemma extract_never_raises_witness :
  exists f, extract LinguisticExtractor_default (lit "no. 7") = Ok f
            /\ (1 <= sentence_count f)%Z
            /\ fields_within 222 f.
Proof.
  destruct (extract_never_raises LinguisticExtractor_default (lit "no. 7"))
    as ((f & Hf & Hs & _ & _ & _ & Hin & _) & _).
  exists f. split; [exact Hf|]. split; [apply Hs; reflexivity|exact Hin].
Defined.

(** ** Rates and counts *)

Lemma ratio_zero_iff (a b : Z) :
  (0 < b)%Z -> (inject_Z a / inject_Z b == 0 <-> a = 0%Z).
Proof.
  intros Hb. split.
  - intros H. pose proof (ratio_times a b) as Ht.
    rewrite H, Qmult_0_l in Ht.
    assert (Hz : inject_Z 0 == inject_Z a) by (apply Ht; lia).
    rewrite inject_Z_injective in Hz. symmetry. exact Hz.
  - intros ->. unfold Qdiv. change (inject_Z 0) with 0. apply Qmult_0_l.
Qed.

Lemma rate_of_ratio (a b : Z) :
  (0 <= a)%Z -> (0 < b)%Z -> rate_of (inject_Z a / inject_Z b) a b.
Proof.
  intros Ha Hb. split; [reflexivity|].
  split; [apply ratio_within; lia|apply ratio_zero_iff, Hb].
Qed.

Lemma rate_of_zero (b : Z) : rate_of 0 0 b.
Proof.
  split; [|split; [discriminate|split; reflexivity]].
  unfold Qdiv. change (inject_Z 0) with 0. now rewrite Qmult_0_l.
Qed.

(** X5. The rate fields of an extracted record are the quotients of its
    count fields, on every path through [extract].  For a text that is not
    white space only, with or without a word, [avg_sentence_length],
    [hedge_density], [negative_emotion_density] and [absolutist_density]
    are [word_count], [hedge_count], [negative_emotion_count] and
    [absolutist_count] divided by [sentence_count]; for a text with a
    word, [caps_ratio] is [caps_word_count] divided by [word_count] and
    [exclamation_ratio] is the number of exclamation marks of the text
    divided by [sentence_count].  Each rate is at most its count, and zero
    exactly when its count is. *)
Theorem extract_rates_match_counts (self : LinguisticExtractor) (text : str) :
  exists f, extract self text = Ok f
    /\ ((0 < sentence_count f)%Z ->
        rate_of (avg_sentence_length f) (word_count f) (sentence_count f)
        /\ rate_of (hedge_density f) (hedge_count f) (sentence_count f)
        /\ rate_of (negative_emotion_density f) (negative_emotion_count f)
             (sentence_count f)
        /\ rate_of (absolutist_density f) (absolutist_count f)
             (sentence_count f))
    /\ ((0 < word_count f)%Z ->
        rate_of (caps_ratio f) (caps_word_count f) (word_count f)
        /\ rate_of (exclamation_ratio f) (Z.of_nat (exclamation_marks text))
             (sentence_count f)).
Proof.
  destruct (whitespace_only text) eqn:Hws.
  { exists LinguisticFeatures_default.
    split; [apply extract_whitespace, Hws|].
    split; intros H; discriminate H. }
  pose proof (count_sentences_pos text) as Hsc.
  destruct (tokens_nil_dec text) as [Hw|Hw].
  { exists (counts_only text).
    split; [apply extract_no_words; assumption|].
    split; [|intros H; discriminate H]. intros _.
    cbn [counts_only avg_sentence_length hedge_density negative_emotion_density
         absolutist_density word_count hedge_count
         negative_emotion_count absolutist_count sentence_count].
    split; [apply rate_of_zero|]. split; [apply rate_of_zero|].
    split; apply rate_of_zero. }
  eexists. split; [apply (extract_words self text Hws Hw)|].
  assert (Hwc : (0 < llen (_tokenize_words text))%Z).
  { pose proof (llen_nonneg (_tokenize_words text)).
    assert (llen (_tokenize_words text) <> 0%Z) by now rewrite llen_nil_iff.
    lia. }
  cbn [avg_sentence_length hedge_density negative_emotion_density
       absolutist_density caps_ratio word_count hedge_count
       negative_emotion_count absolutist_count caps_word_count sentence_count
       exclamation_ratio].
  split; intros _.
  - split; [apply rate_of_ratio; lia|].
    split; [apply rate_of_ratio; [apply count_matches_nonneg|lia]|].
    split; apply rate_of_ratio; first [apply count_matches_nonneg|lia].
  - split; [apply rate_of_ratio; [apply llen_nonneg|exact Hwc]|].
    rewrite count_exclamations. apply rate_of_ratio; lia.
Qed.

(** The text [Go!! now], with a word. *)
Lemma extract_rates_match_counts_witness :
  exists f, extract LinguisticExtractor_default (lit "Go!! now") = Ok f
            /\ rate_of (exclamation_ratio f) 2 1.
Proof.
  destruct (extract_rates_match_counts LinguisticExtractor_default
              (lit "Go!! now")) as (f & Hf & _ & Hex).
  exists f. split; [exact Hf|].
  vm_compute in Hf. injection Hf as <-. apply Hex. reflexivity.
Defined.
